(** * Silica sdk-go: JSON-RPC transport, transaction lifecycle, address
      derivation and memo encryption, embedded from the Go sources. *)

From Stdlib Require Import ZArith NArith Lia List Bool Ascii String Strings.Byte.
From stdpp Require Import base option list gmap strings.

Import ListNotations.
Local Open Scope string_scope.
Local Open Scope list_scope.

(* ===================================================================== *)
(** * Part I: the program                                                 *)
(* ===================================================================== *)

(** ** Generic JSON values

    What [json.Decoder] produces when decoding into [interface{}]:
    nil, bool, float64, string, []interface{} and map[string]interface{}.
    Numbers are carried by their integral value; an object lists its
    members in encoding order (sorted by key when it was produced by
    [json.Marshal] from a Go map). *)

#[warnings="-register-all"]
Inductive JSON : Type :=
| JNull
| JBool (b : bool)
| JNum (n : Z)
| JString (s : string)
| JArray (items : list JSON)
| JObject (members : list (string * JSON)).

(** ** types.go: JSON-RPC types *)

Record JSONRPCError : Type := {
  Code : Z;
  Message : string;
  Data : option JSON
}.

(** ** Go [error] values that occur in the modelled code *)

Inductive error : Type :=
| errorString (msg : string)                       (* fmt.Errorf without %w *)
| wrapError (prefix : string) (err : error)        (* fmt.Errorf("prefix%w", err) *)
| hex_InvalidByteError (c : ascii)                 (* encoding/hex *)
| hex_ErrLength
| json_UnmarshalTypeError (value : string) (type : string)
| json_UnsupportedTypeError (type : string)
| rpcError (e : JSONRPCError)                      (* *JSONRPCError as error *)
| httpError (msg : string).                        (* net/http, io *)

(** No error, or an [*json.UnmarshalTypeError]. *)
Definition is_type_error (e : option error) : Prop :=
  match e with
  | None => True
  | Some (json_UnmarshalTypeError _ _) => True
  | Some _ => False
  end.

(** A Go function body either returns or panics at run time. *)
Inductive outcome (A : Type) : Type :=
| Returned (a : A)
| Panicked (msg : string).
Arguments Returned {A} a.
Arguments Panicked {A} msg.

Definition outcome_bind {A B} (o : outcome A) (k : A -> outcome B) : outcome B :=
  match o with
  | Returned a => k a
  | Panicked m => Panicked m
  end.

(** ** encoding/hex *)

Module hex.

Definition hextable : string := "0123456789abcdef".

Definition hexchar (n : N) : ascii :=
  match String.get (N.to_nat n) hextable with
  | Some c => c
  | None => "0"%char
  end.

(** [fromHexChar]: the value of a hexadecimal digit, either case. *)
Definition fromHexChar (c : ascii) : option N :=
  let n := N_of_ascii c in
  if (48 <=? n)%N && (n <=? 57)%N then Some (n - 48)%N
  else if (97 <=? n)%N && (n <=? 102)%N then Some (n - 97 + 10)%N
  else if (65 <=? n)%N && (n <=? 70)%N then Some (n - 65 + 10)%N
  else None.

Definition byte_of_N (n : N) : byte :=
  match Byte.of_N n with
  | Some b => b
  | None => x00
  end.

(** [EncodeToString]: two lower-case digits per byte, high nibble first. *)
Fixpoint EncodeToString (src : list byte) : string :=
  match src with
  | [] => EmptyString
  | v :: rest =>
      String (hexchar (N.shiftr (Byte.to_N v) 4))
        (String (hexchar (N.land (Byte.to_N v) 15)) (EncodeToString rest))
  end.

(** [DecodeString]: the bytes decoded before the first problem, and the
    problem if any.  An odd trailing character is reported as an invalid
    byte when it is not a digit, as a bad length otherwise. *)
Fixpoint DecodeString (s : string) : list byte * option error :=
  match s with
  | EmptyString => ([], None)
  | String p EmptyString =>
      match fromHexChar p with
      | None => ([], Some (hex_InvalidByteError p))
      | Some _ => ([], Some hex_ErrLength)
      end
  | String p (String q rest) =>
      match fromHexChar p with
      | None => ([], Some (hex_InvalidByteError p))
      | Some a =>
          match fromHexChar q with
          | None => ([], Some (hex_InvalidByteError q))
          | Some b =>
              let '(bs, err) := DecodeString rest in
              (byte_of_N (N.lor (N.shiftl a 4) b) :: bs, err)
          end
      end
  end.

End hex.

(** ** crypto/sha256

    [Sum256] as FIPS 180-4 defines it, on 32-bit words held in [Z]. *)

Module sha256.

Local Open Scope Z_scope.

Definition w32 (x : Z) : Z := x mod 2 ^ 32.
Definition add32 (x y : Z) : Z := w32 (x + y).
Definition rotr (n x : Z) : Z :=
  Z.lor (Z.shiftr x n) (w32 (Z.shiftl x (32 - n))).
Definition not32 (x : Z) : Z := Z.lxor x 0xffffffff.

(** The round constants [_K]: the first 32 bits of the fractional parts
    of the cube roots of the first 64 primes. *)
Definition primes : list Z :=
  [
   2; 3; 5; 7; 11; 13; 17; 19; 23; 29; 31; 37; 41; 43; 47; 53;
   59; 61; 67; 71; 73; 79; 83; 89; 97; 101; 103; 107; 109; 113; 127; 131;
   137; 139; 149; 151; 157; 163; 167; 173; 179; 181; 191; 193; 197; 199; 211; 223;
   227; 229; 233; 239; 241; 251; 257; 263; 269; 271; 277; 281; 283; 293; 307; 311
  ].

(** Integer cube root of [n], found bit by bit below bit [b]. *)
Fixpoint cube_root (b : nat) (n acc : Z) : Z :=
  match b with
  | O => acc
  | S b' =>
      let c := acc + 2 ^ Z.of_nat b' in
      cube_root b' n (if c * c * c <=? n then c else acc)
  end.

Definition _K : list Z :=
  Eval vm_compute in map (fun p => w32 (cube_root 36 (p * 2 ^ 96) 0)) primes.

Record digest : Type := {
  h0 : Z; h1 : Z; h2 : Z; h3 : Z; h4 : Z; h5 : Z; h6 : Z; h7 : Z
}.

Definition init : digest :=
  {| h0 := 0x6a09e667; h1 := 0xbb67ae85; h2 := 0x3c6ef372; h3 := 0xa54ff53a;
     h4 := 0x510e527f; h5 := 0x9b05688c; h6 := 0x1f83d9ab; h7 := 0x5be0cd19 |}.

Definition Z_of_byte (b : byte) : Z := Z.of_N (Byte.to_N b).
Definition byte_of_Z (z : Z) : byte := hex.byte_of_N (Z.to_N (z mod 256)).

(** Big-endian 32-bit words of a block. *)
Fixpoint words (p : list Z) : list Z :=
  match p with
  | b3 :: b2 :: b1 :: b0 :: rest =>
      Z.lor (Z.lor (Z.lor (Z.shiftl b3 24) (Z.shiftl b2 16)) (Z.shiftl b1 8)) b0
        :: words rest
  | _ => []
  end.

(** The message schedule, most recent word first: [rw] holds
    w[i-1], w[i-2], ... and [n] more words are appended. *)
Fixpoint schedule (n : nat) (rw : list Z) : list Z :=
  match n with
  | O => rw
  | S n' =>
      let v1 := nth 1 rw 0 in
      let t1 := Z.lxor (Z.lxor (rotr 17 v1) (rotr 19 v1)) (Z.shiftr v1 10) in
      let v2 := nth 14 rw 0 in
      let t2 := Z.lxor (Z.lxor (rotr 7 v2) (rotr 18 v2)) (Z.shiftr v2 3) in
      schedule n' (add32 (add32 (add32 t1 (nth 6 rw 0)) t2) (nth 15 rw 0) :: rw)
  end.

Definition round (d : digest) (kw : Z * Z) : digest :=
  let '(k, w) := kw in
  let a := h0 d in let b := h1 d in let c := h2 d in let dd := h3 d in
  let e := h4 d in let f := h5 d in let g := h6 d in let h := h7 d in
  let t1 :=
    add32 (add32 (add32 (add32 h
      (Z.lxor (Z.lxor (rotr 6 e) (rotr 11 e)) (rotr 25 e)))
      (Z.lxor (Z.land e f) (Z.land (not32 e) g))) k) w in
  let t2 :=
    add32 (Z.lxor (Z.lxor (rotr 2 a) (rotr 13 a)) (rotr 22 a))
          (Z.lxor (Z.lxor (Z.land a b) (Z.land a c)) (Z.land b c)) in
  {| h0 := add32 t1 t2; h1 := a; h2 := b; h3 := c;
     h4 := add32 dd t1; h5 := e; h6 := f; h7 := g |}.

Definition block (d : digest) (p : list Z) : digest :=
  let w := rev (schedule 48 (rev (words p))) in
  let r := fold_left round (combine _K w) d in
  {| h0 := add32 (h0 d) (h0 r); h1 := add32 (h1 d) (h1 r);
     h2 := add32 (h2 d) (h2 r); h3 := add32 (h3 d) (h3 r);
     h4 := add32 (h4 d) (h4 r); h5 := add32 (h5 d) (h5 r);
     h6 := add32 (h6 d) (h6 r); h7 := add32 (h7 d) (h7 r) |}.

Fixpoint blocks (n : nat) (d : digest) (p : list Z) : digest :=
  match n with
  | O => d
  | S n' => blocks n' (block d (firstn 64 p)) (skipn 64 p)
  end.

(** Padding: 0x80, zeros up to 56 mod 64, then the bit length on 8 bytes. *)
Definition pad (len : Z) : list Z :=
  let zeros := (55 - len) mod 64 in
  let bits := len * 8 in
  0x80 :: repeat 0 (Z.to_nat zeros)
    ++ map (fun i => Z.shiftr bits (8 * (7 - Z.of_nat i)) mod 256) (seq 0 8).

Definition be32 (x : Z) : list byte :=
  [byte_of_Z (Z.shiftr x 24); byte_of_Z (Z.shiftr x 16);
   byte_of_Z (Z.shiftr x 8); byte_of_Z x].

Definition Sum256 (data : list byte) : list byte :=
  let p := map Z_of_byte data in
  let padded := p ++ pad (Z.of_nat (length p)) in
  let d := blocks (length padded / 64) init padded in
  be32 (h0 d) ++ be32 (h1 d) ++ be32 (h2 d) ++ be32 (h3 d)
    ++ be32 (h4 d) ++ be32 (h5 d) ++ be32 (h6 d) ++ be32 (h7 d).

End sha256.

(** ** client.go: address derivation *)

Definition GenerateAddress (publicKey : string) : string * option error :=
  let '(pubKeyBytes, err) := hex.DecodeString publicKey in
  match err with
  | Some e => ("", Some (wrapError "invalid public key hex: " e))
  | None =>
      let hash := sha256.Sum256 pubKeyBytes in
      ("chert_" +:+ hex.EncodeToString (firstn 20 hash), None)
  end.

(** ** privacy.go: memo encryption *)

Definition byte_xor (a b : byte) : byte :=
  hex.byte_of_N (N.lxor (Byte.to_N a) (Byte.to_N b)).

Definition div_by_zero : string := "runtime error: integer divide by zero".

(** The loop [for i, b := range bs { out[i] = b ^ secretBytes[i%len(secretBytes)] }],
    started at index [i].  The remainder by a zero length is a run-time
    panic in Go. *)
Fixpoint xor_range (secretBytes : list byte) (i : nat) (bs : list byte)
  : outcome (list byte) :=
  match bs with
  | [] => Returned []
  | b :: rest =>
      match length secretBytes with
      | O => Panicked div_by_zero
      | S _ =>
          match secretBytes !! (i mod length secretBytes)%nat with
          | None => Panicked "runtime error: index out of range"
          | Some k =>
              outcome_bind (xor_range secretBytes (S i) rest)
                (fun out => Returned (byte_xor b k :: out))
          end
      end
  end.

Definition EncryptMemo (memo sharedSecret : string) : outcome (string * option error) :=
  let '(secretBytes, err) := hex.DecodeString sharedSecret in
  match err with
  | Some e => Returned ("", Some (wrapError "invalid shared secret: " e))
  | None =>
      let memoBytes := list_byte_of_string memo in
      outcome_bind (xor_range secretBytes 0 memoBytes)
        (fun encrypted => Returned (hex.EncodeToString encrypted, None))
  end.

Definition DecryptMemo (encryptedMemo sharedSecret : string) : outcome (string * option error) :=
  let '(encryptedBytes, err) := hex.DecodeString encryptedMemo in
  match err with
  | Some e => Returned ("", Some (wrapError "invalid encrypted memo: " e))
  | None =>
      let '(secretBytes, err) := hex.DecodeString sharedSecret in
      match err with
      | Some e => Returned ("", Some (wrapError "invalid shared secret: " e))
      | None =>
          outcome_bind (xor_range secretBytes 0 encryptedBytes)
            (fun decrypted => Returned (string_of_list_byte decrypted, None))
      end
  end.

(** ** encoding/json

    [Unmarshal] on the target kinds the SDK decodes into: strings,
    unsigned integers, booleans, [interface{}], [map[string]interface{}]
    and structs of these.  A target carries its own kind, as a
    [reflect.Value] does. *)

#[warnings="-register-all"]
Inductive govalue : Type :=
| VString (s : string)
| VUint64 (n : Z)
| VBool (b : bool)
| VInterface (v : option JSON)
| VMap (m : option (gmap string JSON))
| VStruct (name : string) (fields : list (string * govalue)).

(** A value handed to [json.Marshal] through an [interface{}]: nil, a value
    with a JSON encoding, or one of a kind the encoder rejects. *)
Inductive any : Type :=
| anyNil
| anyValue (j : JSON)
| anyUnsupported (type : string).

Module json.

Definition type_name (v : govalue) : string :=
  match v with
  | VString _ => "string"
  | VUint64 _ => "uint64"
  | VBool _ => "bool"
  | VInterface _ => "interface {}"
  | VMap _ => "map[string]interface {}"
  | VStruct name _ => name
  end.

Definition fold_ascii (c : ascii) : ascii :=
  let n := N_of_ascii c in
  if (97 <=? n)%N && (n <=? 122)%N then ascii_of_N (n - 32) else c.

Fixpoint foldName (s : string) : string :=
  match s with
  | EmptyString => EmptyString
  | String c rest => String (fold_ascii c) (foldName rest)
  end.

(** The struct field a member key selects: the field of that exact
    name, else the first one equal to it up to letter case. *)
Definition find_field (key : string) (fields : list (string * govalue)) : option nat :=
  let names := map fst fields in
  match list_find (fun name => name = key) names with
  | Some (i, _) => Some i
  | None =>
      match list_find (fun name => foldName name = foldName key) names with
      | Some (i, _) => Some i
      | None => None
      end
  end.

Definition find_field_value (key : string) (fields : list (string * govalue))
  : option govalue :=
  match find_field key fields with
  | Some i =>
      match fields !! i with
      | Some f => Some f.2
      | None => None
      end
  | None => None
  end.

(** [saveError]: only the earliest type error is kept. *)
Definition saveError (saved new : option error) : option error :=
  match saved with
  | Some _ => saved
  | None => new
  end.

Definition mismatch (value : string) (v : govalue) : govalue * option error :=
  (v, Some (json_UnmarshalTypeError value (type_name v))).

(** [d.object] on a struct: each member is decoded by [value] into the
    field its key selects, members without a field are skipped. *)
Fixpoint object (value : JSON -> govalue -> govalue * option error)
    (members : list (string * JSON)) (fields : list (string * govalue))
    (saved : option error) {struct members}
  : list (string * govalue) * option error :=
  match members with
  | [] => (fields, saved)
  | (key, jv) :: rest =>
      match find_field key fields with
      | None => object value rest fields saved
      | Some i =>
          match fields !! i with
          | None => object value rest fields saved
          | Some (fname, fv) =>
              let '(fv', err) := value jv fv in
              object value rest (<[i := (fname, fv')]> fields) (saveError saved err)
          end
      end
  end.

(** [Unmarshal] of an already well-formed JSON value into [v].  A value
    of the wrong kind for its target is skipped and reported; decoding
    of the other members goes on. *)
Fixpoint Unmarshal (j : JSON) (v : govalue) {struct j} : govalue * option error :=
  match j with
  | JNull =>
      (match v with
       | VInterface _ => VInterface None
       | VMap _ => VMap None
       | _ => v
       end, None)
  | JBool b =>
      match v with
      | VBool _ => (VBool b, None)
      | VInterface _ => (VInterface (Some j), None)
      | _ => mismatch "bool" v
      end
  | JNum n =>
      match v with
      | VUint64 _ =>
          if (0 <=? n)%Z && (n <? 2 ^ 64)%Z then (VUint64 n, None)
          else mismatch "number" v
      | VInterface _ => (VInterface (Some j), None)
      | _ => mismatch "number" v
      end
  | JString s =>
      match v with
      | VString _ => (VString s, None)
      | VInterface _ => (VInterface (Some j), None)
      | _ => mismatch "string" v
      end
  | JArray _ =>
      match v with
      | VInterface _ => (VInterface (Some j), None)
      | _ => mismatch "array" v
      end
  | JObject members =>
      match v with
      | VInterface _ => (VInterface (Some j), None)
      | VMap m =>
          (VMap (Some (foldl (fun acc kv => <[kv.1 := kv.2]> acc)
                             (default ∅ m) members)), None)
      | VStruct name fields =>
          let '(fields', saved) := object Unmarshal members fields None in
          (VStruct name fields', saved)
      | _ => mismatch "object" v
      end
  end.

(** [Marshal] of a value held in an [interface{}]. *)
Definition Marshal (a : any) : JSON + error :=
  match a with
  | anyNil => inl JNull
  | anyValue j => inl j
  | anyUnsupported t => inr (json_UnsupportedTypeError t)
  end.

(** Members of a Go map are encoded sorted by key. *)
Fixpoint insert_member (kv : string * JSON) (l : list (string * JSON))
  : list (string * JSON) :=
  match l with
  | [] => [kv]
  | kv' :: rest =>
      if String.leb kv.1 kv'.1 then kv :: l else kv' :: insert_member kv rest
  end.

Definition Marshal_map (m : gmap string JSON) : JSON :=
  JObject (foldr insert_member [] (map_to_list m)).

End json.

(** The zero value of a target's type ([reflect.Zero]): same kind, same
    fields, no content. *)
Fixpoint zero (v : govalue) : govalue :=
  match v with
  | VString _ => VString ""
  | VUint64 _ => VUint64 0
  | VBool _ => VBool false
  | VInterface _ => VInterface None
  | VMap _ => VMap None
  | VStruct name fields => VStruct name (map (fun f => (f.1, zero f.2)) fields)
  end.

Definition zero_field (f : string * govalue) : string * govalue := (f.1, zero f.2).

(** The spec's "shape of the payload matches the shape of [out]", read
    with the kinds of encoding/json: null fits everything, a scalar fits a
    target of its own kind (a number fits [uint64] when it is in range),
    everything fits [interface{}], an object fits a map, and it fits a
    struct when each member that names a field fits that field. *)
Fixpoint members_match (fits : JSON -> govalue -> bool)
    (members : list (string * JSON)) (fields : list (string * govalue)) : bool :=
  match members with
  | [] => true
  | (key, jv) :: rest =>
      match json.find_field_value key fields with
      | Some fv => fits jv fv
      | None => true
      end && members_match fits rest fields
  end.

Fixpoint shape_matches (j : JSON) (v : govalue) {struct j} : bool :=
  match j with
  | JNull => true
  | JBool _ => match v with VBool _ | VInterface _ => true | _ => false end
  | JNum n =>
      match v with
      | VUint64 _ => (0 <=? n)%Z && (n <? 2 ^ 64)%Z
      | VInterface _ => true
      | _ => false
      end
  | JString _ => match v with VString _ | VInterface _ => true | _ => false end
  | JArray _ => match v with VInterface _ => true | _ => false end
  | JObject members =>
      match v with
      | VInterface _ | VMap _ => true
      | VStruct _ fields => members_match shape_matches members fields
      | _ => false
      end
  end.

(** A member of a JSON object, by key. *)
Definition member (key : string) (j : JSON) : option JSON :=
  match j with
  | JObject members =>
      match list_find (fun kv => kv.1 = key) members with
      | Some (_, kv) => Some kv.2
      | None => None
      end
  | _ => None
  end.

(** ** types.go: JSON-RPC envelopes *)

Record JSONRPCRequest : Type := {
  JSONRPC : string;
  Method : string;
  Params : any;          (* json:"params,omitempty" *)
  ID : any
}.

Module JSONRPCResponse.
Record t : Type := {
  JSONRPC : string;
  Result : option JSON;          (* interface{}: nil when absent or null *)
  Error : option JSONRPCError;   (* *JSONRPCError *)
  ID : option JSON
}.
End JSONRPCResponse.

(** [json.Marshal] of a [JSONRPCRequest]: fields in declaration order,
    [params] left out when the interface is nil. *)
Definition Marshal_request (r : JSONRPCRequest) : JSON + error :=
  match json.Marshal (ID r) with
  | inr e => inr e
  | inl id =>
      match Params r with
      | anyNil =>
          inl (JObject [("jsonrpc", JString (JSONRPC r));
                        ("method", JString (Method r));
                        ("id", id)])
      | p =>
          match json.Marshal p with
          | inr e => inr e
          | inl pj =>
              inl (JObject [("jsonrpc", JString (JSONRPC r));
                            ("method", JString (Method r));
                            ("params", pj);
                            ("id", id)])
          end
      end
  end.



Definition Fee_zero : govalue :=
  VStruct "chert.Fee"
    [("amount", VString ""); ("gas_limit", VUint64 0); ("gas_price", VString "")].

(** ** rpc.go: the transport *)

(** What the HTTP round trip of one call amounts to, by the stage that
    fails or the envelope decoded from the response body. *)
Inductive exchange : Type :=
| NewRequestFailed (e : error)
| DoFailed (e : error)
| DecodeFailed (e : error)
| Decoded (rpcResp : JSONRPCResponse.t).

(** The outside world: the node answers the [n]-th posted body, and
    [uuid.New] yields the [n]-th identifier. *)
Record env : Type := {
  node : nat -> JSON -> exchange;
  uuid_New : nat -> string
}.

Record state : Type := {
  posted : list JSON;    (* bodies handed to [client.Do], oldest first *)
  drawn : nat            (* identifiers drawn so far *)
}.

Definition after_post (st : state) (requestBody : JSON) : state :=
  {| posted := posted st ++ [requestBody]; drawn := drawn st |}.

(** The envelope [Call] builds: fixed version tag, fixed id. *)
Definition request_of (method : string) (params : any) : JSONRPCRequest :=
  {| JSONRPC := "2.0"; Method := method; Params := params;
     ID := anyValue (JNum 1) |}.

Definition M (A : Type) : Type := state -> A * state.

#[global] Instance M_ret : MRet M := fun A a st => (a, st).
#[global] Instance M_bind : MBind M :=
  fun A B k m st => let '(a, st') := m st in k a st'.

Section Client.

Variable E : env.

Definition roundTrip (requestBody : JSON) : M exchange :=
  fun st =>
    match node E (length (posted st)) requestBody with
    | NewRequestFailed e => (NewRequestFailed e, st)
    | x => (x, after_post st requestBody)
    end.

(** [Call]: [result] is the caller's slot ([None] for a nil interface);
    the slot's content after the call is returned with the error. *)
Definition Call (method : string) (params : any) (result : option govalue)
  : M (option govalue * option error) :=
  let request := request_of method params in
  match Marshal_request request with
  | inr err => mret (result, Some (wrapError "failed to marshal RPC request: " err))
  | inl requestBody =>
      x ← roundTrip requestBody;
      match x with
      | NewRequestFailed err =>
          mret (result, Some (wrapError "failed to create RPC request: " err))
      | DoFailed err =>
          mret (result, Some (wrapError "RPC request failed: " err))
      | DecodeFailed err =>
          mret (result, Some (wrapError "failed to decode RPC response: " err))
      | Decoded rpcResp =>
          match JSONRPCResponse.Error rpcResp with
          | Some e => mret (result, Some (rpcError e))
          | None =>
              match result, JSONRPCResponse.Result rpcResp with
              | Some out, Some payload =>
                  (* re-encoding a decoded generic value cannot fail *)
                  let '(out', err) := json.Unmarshal payload out in
                  mret (Some out', err)
              | _, _ => mret (result, None)
              end
          end
      end
  end.

End Client.

(** ** types.go: accounts and transactions *)

Record Account : Type := {
  Address : string;
  PublicKey : string;
  PrivateKey : string        (* empty for a watch-only account *)
}.

Record TransactionRequest : Type := {
  To : string;
  Amount : string;
  Fee : string;
  Memo : string;
  Nonce : Z
}.

Module Transaction.
Record t : Type := {
  Hash : string;
  From : string;
  To : string;
  Amount : string;
  Fee : string;
  Memo : string;
  BlockHeight : Z;
  Status : string;
  Timestamp : Z;
  Nonce : Z
}.
End Transaction.

Definition TxStatusPending : string := "pending".
Definition TxStatusConfirmed : string := "confirmed".
Definition TxStatusFailed : string := "failed".
Definition TxStatusRejected : string := "rejected".

(** ** wallet.go: submission *)

Section Wallet.

Variable E : env.

Definition GenerateTxID : M string :=
  fun st => (uuid_New E (drawn st),
             {| posted := posted st; drawn := S (drawn st) |}).

Definition signTransaction (request : TransactionRequest) (privateKey : string)
  : M (string * option error) :=
  id ← GenerateTxID;
  mret ("mock_signature_" +:+ id, None).

(** [result["hash"]] on the decoded map; a nil map has no entries. *)
Definition index (result : option govalue) (key : string) : option JSON :=
  match result with
  | Some (VMap (Some m)) => m !! key
  | _ => None
  end.

Definition SendTransaction (request : TransactionRequest) (account : Account)
  : M (string * option error) :=
  if decide (PrivateKey account = "") then
    mret ("", Some (errorString "account does not have a private key"))
  else
    '(signature, err) ← signTransaction request (PrivateKey account);
    match err with
    | Some e => mret ("", Some (wrapError "failed to sign transaction: " e))
    | None =>
        let tx : gmap string JSON :=
          <["signature" := JString signature]>
          (<["nonce" := JNum (Nonce request)]>
          (<["fee" := JString (Fee request)]>
          (<["amount" := JString (Amount request)]>
          (<["recipient" := JString (To request)]>
          (<["sender" := JString (Address account)]> ∅))))) in
        let tx :=
          if decide (Memo request = "") then tx
          else <["memo" := JString (Memo request)]> tx in
        '(result, err) ←
          Call E "sendTransaction" (anyValue (JArray [json.Marshal_map tx]))
               (Some (VMap None));
        match err with
        | Some e => mret ("", Some e)
        | None =>
            match index result "hash" with
            | Some (JString txHash) => mret (txHash, None)
            | _ => mret ("", Some (errorString "invalid transaction response"))
            end
        end
    end.

End Wallet.

(** ** wallet.go: confirmation polling *)

Section Polling.

(** [GetTransaction n hash]: what the [n]-th fetch of [hash] returns,
    the decoded record together with the error of the call. *)
Variable GetTransaction : nat -> string -> Transaction.t * option error.

Definition interval : Z := 2000.

Record loop_state : Type := {
  startTime : Z;     (* uint64, the simulated clock *)
  fetches : nat      (* calls of [GetTransaction] made so far *)
}.

Inductive step : Type :=
| Continue (s : loop_state)
| Return (tx : option Transaction.t) (err : option error) (s : loop_state).

(** One evaluation of the loop condition and, when it holds, of the body. *)
Definition iteration (txHash : string) (timeoutMs : Z) (s : loop_state) : step :=
  if (startTime s <? timeoutMs)%Z then
    let '(tx, err) := GetTransaction (fetches s) txHash in
    let fetched := {| startTime := startTime s; fetches := S (fetches s) |} in
    match err with
    | Some _ => Continue fetched
    | None =>
        if decide (Transaction.Status tx = TxStatusConfirmed) then
          Return (Some tx) None fetched
        else if decide (Transaction.Status tx = TxStatusFailed
                        \/ Transaction.Status tx = TxStatusRejected) then
          Return None
            (Some (errorString ("transaction " +:+ Transaction.Status tx)))
            fetched
        else
          Continue {| startTime := ((startTime s + interval) mod 2 ^ 64)%Z;
                      fetches := S (fetches s) |}
    end
  else
    Return None (Some (errorString "transaction confirmation timeout")) s.

(** The loop, run for at most [fuel] iterations: the values returned
    with the clock and the number of fetches at that point, or [None]
    when the loop is still running. *)
Fixpoint loop (fuel : nat) (txHash : string) (timeoutMs : Z) (s : loop_state)
  : option (option Transaction.t * option error * loop_state) :=
  match fuel with
  | O => None
  | S fuel' =>
      match iteration txHash timeoutMs s with
      | Return tx err s' => Some (tx, err, s')
      | Continue s' => loop fuel' txHash timeoutMs s'
      end
  end.

(** The budget in force: 60 seconds when none is given. *)
Definition budget (timeoutMs : Z) : Z :=
  if (timeoutMs =? 0)%Z then 60000%Z else timeoutMs.

Definition WaitForTransaction (fuel : nat) (txHash : string) (timeoutMs : Z)
  : option (option Transaction.t * option error * loop_state) :=
  let timeoutMs := budget timeoutMs in
  loop fuel txHash timeoutMs {| startTime := 0; fetches := 0 |}.

(** The state the loop is in after [n] iterations, if it has not
    returned before. *)
Fixpoint after (n : nat) (txHash : string) (timeoutMs : Z) (s : loop_state)
  : option loop_state :=
  match n with
  | O => Some s
  | S n' =>
      match iteration txHash timeoutMs s with
      | Continue s' => after n' txHash timeoutMs s'
      | Return _ _ _ => None
      end
  end.

Definition terminal (status : string) : Prop :=
  status = TxStatusConfirmed \/ status = TxStatusFailed
  \/ status = TxStatusRejected.

End Polling.

(** ** Encoded payloads and sample data used in the statements *)

(** The signed payload, as encoded (members of a Go map sorted by key). *)
Definition signed_payload (request : TransactionRequest) (account : Account)
    (signature : string) : JSON :=
  JObject
    ([("amount", JString (Amount request)); ("fee", JString (Fee request))]
     ++ (if decide (Memo request = "") then []
         else [("memo", JString (Memo request))])
     ++ [("nonce", JNum (Nonce request)); ("recipient", JString (To request));
         ("sender", JString (Address account));
         ("signature", JString signature)]).


Definition Transaction_zero : Transaction.t :=
  {| Transaction.Hash := ""; Transaction.From := ""; Transaction.To := "";
     Transaction.Amount := ""; Transaction.Fee := ""; Transaction.Memo := "";
     Transaction.BlockHeight := 0; Transaction.Status := "";
     Transaction.Timestamp := 0; Transaction.Nonce := 0 |}.

Definition Transaction_with_status (status : string) : Transaction.t :=
  {| Transaction.Hash := "0xabc"; Transaction.From := "addrA";
     Transaction.To := "addrB"; Transaction.Amount := "100.0";
     Transaction.Fee := "0.1"; Transaction.Memo := "";
     Transaction.BlockHeight := 7; Transaction.Status := status;
     Transaction.Timestamp := 0; Transaction.Nonce := 0 |}.

(** A node on which the transaction is pending for two fetches, then
    confirmed. *)
Definition slow_node (k : nat) (_ : string) : Transaction.t * option error :=
  if decide (k < 2)%nat then (Transaction_with_status "pending", None)
  else (Transaction_with_status "confirmed", None).

(** ** wallet.go: keys and accounts *)

(** [derivePublicKey]: the private key must be hex for exactly 32 bytes;
    the "public key" is those bytes, encoded again. *)
Definition derivePublicKey (privateKey : string) : string * option error :=
  let '(privateKeyBytes, err) := hex.DecodeString privateKey in
  match err with
  | Some e => ("", Some (wrapError "invalid private key hex: " e))
  | None =>
      if decide (length privateKeyBytes <> 32%nat) then
        ("", Some (errorString "invalid private key length"))
      else (hex.EncodeToString privateKeyBytes, None)
  end.

(** [generateKeyPair], given what [rand.Read] does with the 32-byte
    buffer: it fills it or fails.  The public key bytes are a copy of the
    private key bytes. *)
Definition generateKeyPair (random : list byte + error)
  : string * string * option error :=
  match random with
  | inr err => ("", "", Some (wrapError "failed to generate random bytes: " err))
  | inl privateKeyBytes =>
      let publicKeyBytes := privateKeyBytes in
      (hex.EncodeToString privateKeyBytes, hex.EncodeToString publicKeyBytes, None)
  end.

Definition CreateAccount (random : list byte + error) : option Account * option error :=
  let '(privateKey, publicKey, err) := generateKeyPair random in
  match err with
  | Some e => (None, Some (wrapError "failed to generate key pair: " e))
  | None =>
      let '(address, err) := GenerateAddress publicKey in
      match err with
      | Some e => (None, Some (wrapError "failed to generate address: " e))
      | None =>
          (Some {| Address := address; PublicKey := publicKey;
                   PrivateKey := privateKey |}, None)
      end
  end.

Definition ImportAccount (privateKey : string) : option Account * option error :=
  let '(publicKey, err) := derivePublicKey privateKey in
  match err with
  | Some e => (None, Some (wrapError "failed to derive public key: " e))
  | None =>
      let '(address, err) := GenerateAddress publicKey in
      match err with
      | Some e => (None, Some (wrapError "failed to generate address: " e))
      | None =>
          (Some {| Address := address; PublicKey := publicKey;
                   PrivateKey := privateKey |}, None)
      end
  end.

Definition CreateWatchOnlyAccount (publicKey : string) : option Account * option error :=
  let '(address, err) := GenerateAddress publicKey in
  match err with
  | Some e => (None, Some (wrapError "failed to generate address: " e))
  | None =>
      (Some {| Address := address; PublicKey := publicKey; PrivateKey := "" |}, None)
  end.

(** ** privacy.go: stealth keys and shared secrets *)

Record KeyPair : Type := { Public : string; Secret : string }.

Record StealthKeys : Type := { ViewKeypair : KeyPair; SpendKeypair : KeyPair }.

Module StealthAccount.
Record t : Type := {
  Address : string;
  ViewKey : string;
  SpendPublicKey : string;
  Keys : option StealthKeys
}.
End StealthAccount.

Definition GenerateStealthKeys (random1 random2 : list byte + error)
  : option StealthKeys * option error :=
  let '(viewPrivate, viewPublic, err) := generateKeyPair random1 in
  match err with
  | Some e => (None, Some (wrapError "failed to generate view keypair: " e))
  | None =>
      let '(spendPrivate, spendPublic, err) := generateKeyPair random2 in
      match err with
      | Some e => (None, Some (wrapError "failed to generate spend keypair: " e))
      | None =>
          (Some {| ViewKeypair := {| Public := viewPublic; Secret := viewPrivate |};
                   SpendKeypair := {| Public := spendPublic; Secret := spendPrivate |} |},
           None)
      end
  end.

Definition CreateStealthAccount (viewKey spendPublicKey : string)
    (keys : option StealthKeys) : option StealthAccount.t * option error :=
  let hash := sha256.Sum256 (list_byte_of_string (viewKey +:+ spendPublicKey)) in
  let address := "stealth_" +:+ hex.EncodeToString (firstn 20 hash) in
  (Some {| StealthAccount.Address := address; StealthAccount.ViewKey := viewKey;
           StealthAccount.SpendPublicKey := spendPublicKey;
           StealthAccount.Keys := keys |}, None).

Definition DeriveSharedSecret (viewKey recipientViewKey : string)
  : string * option error :=
  let combined := viewKey +:+ recipientViewKey in
  let hash := sha256.Sum256 (list_byte_of_string combined) in
  (hex.EncodeToString hash, None).

Module PrivateTransactionRequest.
Record t : Type := {
  SenderKeys : StealthKeys;
  RecipientViewKey : string;
  Amount : string;
  Fee : string;
  Memo : string;
  PrivacyLevel : string;
  Nonce : Z
}.
End PrivateTransactionRequest.

(** [json.Marshal] of the key structs, fields in declaration order. *)
Definition Marshal_KeyPair (k : KeyPair) : JSON :=
  JObject [("public", JString (Public k)); ("secret", JString (Secret k))].

Definition Marshal_StealthKeys (k : StealthKeys) : JSON :=
  JObject [("view_keypair", Marshal_KeyPair (ViewKeypair k));
           ("spend_keypair", Marshal_KeyPair (SpendKeypair k))].

(** A [*StealthKeys]: a nil pointer encodes as null. *)
Definition Marshal_StealthKeys_ptr (k : option StealthKeys) : JSON :=
  match k with
  | Some keys => Marshal_StealthKeys keys
  | None => JNull
  end.

(** [SendPrivateTransaction], given the outcomes of the two reads of the
    random source that [GenerateStealthKeys] makes. *)
Definition SendPrivateTransaction (E : env)
    (request : PrivateTransactionRequest.t)
    (recipientViewKey recipientSpendKey : string)
    (random1 random2 : list byte + error) (st : state)
  : outcome (string * option error * state) :=
  let '(ephemeralKeys, err) := GenerateStealthKeys random1 random2 in
  match err with
  | Some e => Returned ("", Some (wrapError "failed to generate ephemeral keys: " e), st)
  | None =>
      let '(sharedSecret, err) :=
        DeriveSharedSecret
          (Secret (ViewKeypair (PrivateTransactionRequest.SenderKeys request)))
          recipientViewKey in
      match err with
      | Some e => Returned ("", Some (wrapError "failed to derive shared secret: " e), st)
      | None =>
          outcome_bind
            (if decide (PrivateTransactionRequest.Memo request = "") then
               Returned ("", None)
             else EncryptMemo (PrivateTransactionRequest.Memo request) sharedSecret)
            (fun '(encryptedMemo, err) =>
               match err with
               | Some e => Returned ("", Some (wrapError "failed to encrypt memo: " e), st)
               | None =>
                   let tx : gmap string JSON :=
                     <["nonce" := JNum (PrivateTransactionRequest.Nonce request)]>
                     (<["privacy_level" :=
                          JString (PrivateTransactionRequest.PrivacyLevel request)]>
                     (<["fee" := JString (PrivateTransactionRequest.Fee request)]>
                     (<["amount" := JString (PrivateTransactionRequest.Amount request)]>
                     (<["ephemeral_keys" := Marshal_StealthKeys_ptr ephemeralKeys]>
                     (<["recipient_spend_key" := JString recipientSpendKey]>
                     (<["recipient_view_key" := JString recipientViewKey]>
                     (<["sender_keys" :=
                          Marshal_StealthKeys
                            (PrivateTransactionRequest.SenderKeys request)]> ∅))))))) in
                   let tx :=
                     if decide (encryptedMemo = "") then tx
                     else <["encrypted_memo" := JString encryptedMemo]> tx in
                   let '(result, err, st') :=
                     Call E "sendPrivateTransaction"
                          (anyValue (JArray [json.Marshal_map tx]))
                          (Some (VMap None)) st in
                   match err with
                   | Some e => Returned ("", Some e, st')
                   | None =>
                       match index result "tx_id" with
                       | Some (JString txID) => Returned (txID, None, st')
                       | _ =>
                           Returned ("", Some (errorString
                                      "invalid private transaction response"), st')
                       end
                   end
               end)
      end
  end.

(** ** wallet.go: balance and fee queries *)

Definition Balance_zero : govalue :=
  VStruct "chert.Balance"
    [("available", VString ""); ("pending", VString ""); ("total", VString "")].

(** [GetBalance] returns the address of its local [result], whatever
    the call did to it, together with the error of the call. *)
Definition GetBalance (E : env) (address : string) : M (govalue * option error) :=
  '(result, err) ← Call E "getBalance" (anyValue (JArray [JString address]))
                         (Some Balance_zero);
  mret (default Balance_zero result, err).



(** ** staking.go and governance.go: submissions *)

Definition Delegate (E : env) (delegatorAddress validatorAddress amount fee : string)
  : M (string * option error) :=
  let params : gmap string JSON :=
    <["fee" := JString fee]>
    (<["amount" := JString amount]>
    (<["validator" := JString validatorAddress]>
    (<["delegator" := JString delegatorAddress]> ∅))) in
  '(result, err) ← Call E "staking_delegate"
                         (anyValue (JArray [json.Marshal_map params]))
                         (Some (VMap None));
  match err with
  | Some e => mret ("", Some e)
  | None =>
      match index result "tx_hash" with
      | Some (JString txHash) => mret (txHash, None)
      | _ => mret ("", Some (errorString "invalid delegation response"))
      end
  end.

Definition UpdateCommission (E : env) (validatorAddress ownerAddress : string)
    (newRate : Z) (fee : string) : M (string * option error) :=
  let params : gmap string JSON :=
    <["fee" := JString fee]>
    (<["new_rate" := JNum newRate]>
    (<["owner_address" := JString ownerAddress]>
    (<["validator_address" := JString validatorAddress]> ∅))) in
  '(result, err) ← Call E "staking_updateCommission"
                         (anyValue (JArray [json.Marshal_map params]))
                         (Some (VMap None));
  match err with
  | Some e => mret ("", Some e)
  | None =>
      match index result "tx_hash" with
      | Some (JString txHash) => mret (txHash, None)
      | _ => mret ("", Some (errorString "invalid commission update response"))
      end
  end.

Definition CreateProposal (E : env) (title description proposerAddress fee : string)
  : M (string * option error) :=
  let params : gmap string JSON :=
    <["fee" := JString fee]>
    (<["proposer" := JString proposerAddress]>
    (<["description" := JString description]>
    (<["title" := JString title]> ∅))) in
  '(result, err) ← Call E "governance_createProposal"
                         (anyValue (JArray [json.Marshal_map params]))
                         (Some (VMap None));
  match err with
  | Some e => mret ("", Some e)
  | None =>
      match index result "proposal_id" with
      | Some (JString proposalID) => mret (proposalID, None)
      | _ => mret ("", Some (errorString "invalid proposal creation response"))
      end
  end.

Definition Vote (E : env) (proposalID voterAddress voteOption fee : string)
  : M (string * option error) :=
  let params : gmap string JSON :=
    <["fee" := JString fee]>
    (<["option" := JString voteOption]>
    (<["voter" := JString voterAddress]>
    (<["proposal_id" := JString proposalID]> ∅))) in
  '(result, err) ← Call E "governance_vote"
                         (anyValue (JArray [json.Marshal_map params]))
                         (Some (VMap None));
  match err with
  | Some e => mret ("", Some e)
  | None =>
      match index result "tx_hash" with
      | Some (JString txHash) => mret (txHash, None)
      | _ => mret ("", Some (errorString "invalid vote response"))
      end
  end.

(** ** client.go: configuration *)

Definition DefaultTimeout : Z := 30 * 1000000000.   (* 30 * time.Second *)
Definition DefaultEndpoint : string := "https://api.chert.com".
Definition NetworkMainnet : string := "mainnet".

Record ClientConfig : Type := {
  Endpoint : string;
  Network : string;
  Timeout : Z;
  APIKey : string;
  Headers : option (gmap string string)     (* a Go map: nil or allocated *)
}.

Definition DefaultClientConfig : ClientConfig :=
  {| Endpoint := DefaultEndpoint; Network := NetworkMainnet;
     Timeout := DefaultTimeout; APIKey := ""; Headers := Some ∅ |}.

Record RPCClient : Type := {
  endpoint : string;
  client_Timeout : Z          (* the [Timeout] of its [http.Client] *)
}.

Definition NewRPCClient (endpoint : string) (timeout : Z) : RPCClient :=
  {| endpoint := endpoint; client_Timeout := timeout |}.

Record ChertClient : Type := {
  config : ClientConfig;
  httpClient_Timeout : Z;
  rpcClient : RPCClient
}.

(** [NewClient]: [config] is the caller's pointer ([None] for nil); the
    defaults are written into the configuration the client then holds. *)
Definition NewClient (config : option ClientConfig) : ChertClient * option error :=
  let config := match config with None => DefaultClientConfig | Some c => c end in
  let config :=
    if decide (Endpoint config = "") then
      {| Endpoint := DefaultEndpoint; Network := Network config;
         Timeout := Timeout config; APIKey := APIKey config;
         Headers := Headers config |}
    else config in
  let config :=
    if decide (Timeout config = 0%Z) then
      {| Endpoint := Endpoint config; Network := Network config;
         Timeout := DefaultTimeout; APIKey := APIKey config;
         Headers := Headers config |}
    else config in
  let config :=
    if decide (Network config = "") then
      {| Endpoint := Endpoint config; Network := NetworkMainnet;
         Timeout := Timeout config; APIKey := APIKey config;
         Headers := Headers config |}
    else config in
  ({| config := config; httpClient_Timeout := Timeout config;
      rpcClient := NewRPCClient (Endpoint config) (Timeout config) |}, None).

Definition GetConfig (c : ChertClient) : ClientConfig := config c.

(** ** Vocabulary of the statements about keys *)

(** A hexadecimal digit, either case. *)
Definition hex_digit (c : ascii) : bool :=
  bool_decide (c ∈ list_ascii_of_string "0123456789abcdefABCDEF").

(** Hexadecimal text: an even number of hexadecimal digits. *)
Definition hex_text (s : string) : Prop :=
  Nat.Even (String.length s)
  /\ Forall (fun c => hex_digit c = true) (list_ascii_of_string s).

(** The private transaction payload, as encoded. *)
Definition private_payload (request : PrivateTransactionRequest.t)
    (recipientViewKey recipientSpendKey : string)
    (ephemeralKeys : option StealthKeys) (encryptedMemo : string) : JSON :=
  JObject
    ([("amount", JString (PrivateTransactionRequest.Amount request))]
     ++ (if decide (encryptedMemo = "") then []
         else [("encrypted_memo", JString encryptedMemo)])
     ++ [("ephemeral_keys", Marshal_StealthKeys_ptr ephemeralKeys);
         ("fee", JString (PrivateTransactionRequest.Fee request));
         ("nonce", JNum (PrivateTransactionRequest.Nonce request));
         ("privacy_level", JString (PrivateTransactionRequest.PrivacyLevel request));
         ("recipient_spend_key", JString recipientSpendKey);
         ("recipient_view_key", JString recipientViewKey);
         ("sender_keys",
          Marshal_StealthKeys (PrivateTransactionRequest.SenderKeys request))]).

Definition call_body (method : string) (params : JSON) : JSON :=
  JObject [("jsonrpc", JString "2.0"); ("method", JString method);
           ("params", params); ("id", JNum 1)].

(** ** Vocabulary of the statements about submissions *)

(** What the managers do with the outcome of their call: an error is
    passed on, otherwise the string under [key] of the decoded map is
    returned, or the error [missing]. *)
Definition extract (key missing : string) (r : option govalue * option error * state)
  : string * option error * state :=
  let '(result, err, st') := r in
  match err with
  | Some e => ("", Some e, st')
  | None =>
      match index result key with
      | Some (JString v) => (v, None, st')
      | _ => ("", Some (errorString missing), st')
      end
  end.

(** [submits E st r body key missing]: started in state [st], an
    operation that ended with [r] has posted [body] once (unless the
    request could not be created) and has returned, by what the node did
    with it: the transport error of the failing stage; the node's error
    object as it is; the string member [key] of the result object; the
    error [missing] when the result is absent, null or an object without
    such a member; the decoder's type error when the result is anything
    else. *)
Definition submits (E : env) (st : state) (r : string * option error * state)
    (body : JSON) (key missing : string) : Prop :=
  match node E (length (posted st)) body with
  | NewRequestFailed err =>
      r.1 = ("", Some (wrapError "failed to create RPC request: " err))
      /\ posted r.2 = posted st
  | DoFailed err =>
      r.1 = ("", Some (wrapError "RPC request failed: " err))
      /\ posted r.2 = posted st ++ [body]
  | DecodeFailed err =>
      r.1 = ("", Some (wrapError "failed to decode RPC response: " err))
      /\ posted r.2 = posted st ++ [body]
  | Decoded rpcResp =>
      posted r.2 = posted st ++ [body]
      /\ match JSONRPCResponse.Error rpcResp with
         | Some e => r.1 = ("", Some (rpcError e))
         | None =>
             match JSONRPCResponse.Result rpcResp with
             | None | Some JNull => r.1 = ("", Some (errorString missing))
             | Some (JObject members) =>
                 (forall v, (key, JString v) ∈ members -> NoDup members.*1 ->
                            r.1 = (v, None))
                 /\ ((forall v, (key, JString v) ∉ members) ->
                     r.1 = ("", Some (errorString missing)))
                 /\ (forall v, r.1 = (v, None) -> (key, JString v) ∈ members)
             | Some _ =>
                 exists value type,
                   r.1 = ("", Some (json_UnmarshalTypeError value type))
             end
         end
  end.

(** ** Proof steps shared by the statements about submissions *)

Ltac encode_map :=
  match goal with
  | |- context [json.Marshal_map ?m] =>
      let j := eval vm_compute in (json.Marshal_map m) in
      replace (json.Marshal_map m) with j by (vm_compute; reflexivity)
  end.

Ltac as_extract :=
  unfold mbind, M_bind, mret, M_ret;
  match goal with
  | |- context [Call ?E ?m ?p ?r ?st] =>
      destruct (Call E m p r st) as [[?result [?e|]] ?st']; [reflexivity|];
      cbn [extract];
      match goal with
      | |- context [index ?res ?k] =>
          destruct (index res k) as [[ | | | | | ]|]; reflexivity
      end
  end.

(* ===================================================================== *)
(** * Part II: properties                                                 *)
(* ===================================================================== *)

(** ** The model on concrete inputs *)

Example EncryptMemo_hi : EncryptMemo "hi" "0fF0" = Returned ("6799", None).
Proof. reflexivity. Qed.

Example DecryptMemo_hi : DecryptMemo "6799" "0fF0" = Returned ("hi", None).
Proof. reflexivity. Qed.

Example EncryptMemo_bad_secret :
  EncryptMemo "hi" "0g" = Returned ("", Some (wrapError "invalid shared secret: " (hex_InvalidByteError "g"))).
Proof. reflexivity. Qed.

Example K_first_last :
  nth 0 sha256._K 0%Z = 0x428a2f98%Z /\ nth 63 sha256._K 0%Z = 0xc67178f2%Z
  /\ length sha256._K = 64%nat.
Proof. repeat split. Qed.

Example Sum256_empty :
  hex.EncodeToString (sha256.Sum256 []) =
  "e3b0c44298fc1c149afbf4c8996fb92427ae41e4649b934ca495991b7852b855".
Proof. vm_compute. reflexivity. Qed.

Example Sum256_abc :
  hex.EncodeToString (sha256.Sum256 (list_byte_of_string "abc")) =
  "ba7816bf8f01cfea414140de5dae2223b00361a396177a9cb410ff61f20015ad".
Proof. vm_compute. reflexivity. Qed.

Example Sum256_two_blocks :
  hex.EncodeToString (sha256.Sum256 (list_byte_of_string
    "abcdbcdecdefdefgefghfghighijhijkijkljklmklmnlmnomnopnopq")) =
  "248d6a61d20638b8e5c026930c3e6039a33ce45964ff2167f6ecedd419db06c1".
Proof. vm_compute. reflexivity. Qed.

Example GenerateAddress_ab :
  GenerateAddress "ab" = ("chert_087d80f7f182dd44f184aa86ca34488853ebcc04", None).
Proof. vm_compute. reflexivity. Qed.

(** ** encoding/hex: decoding inverts encoding *)

Lemma fromHexChar_hi (v : byte) :
  hex.fromHexChar (hex.hexchar (N.shiftr (Byte.to_N v) 4))
  = Some (N.shiftr (Byte.to_N v) 4).
Proof. destruct v; reflexivity. Qed.

Lemma fromHexChar_lo (v : byte) :
  hex.fromHexChar (hex.hexchar (N.land (Byte.to_N v) 15))
  = Some (N.land (Byte.to_N v) 15).
Proof. destruct v; reflexivity. Qed.

Lemma byte_of_nibbles (v : byte) :
  hex.byte_of_N (N.lor (N.shiftl (N.shiftr (Byte.to_N v) 4) 4)
                       (N.land (Byte.to_N v) 15)) = v.
Proof. destruct v; reflexivity. Qed.

Lemma DecodeString_EncodeToString (bs : list byte) :
  hex.DecodeString (hex.EncodeToString bs) = (bs, None).
Proof.
  induction bs as [|v bs IH]; [reflexivity|].
  cbn [hex.EncodeToString hex.DecodeString].
  rewrite fromHexChar_hi, fromHexChar_lo, IH, byte_of_nibbles.
  reflexivity.
Qed.

Lemma length_EncodeToString (bs : list byte) :
  String.length (hex.EncodeToString bs) = (2 * length bs)%nat.
Proof.
  induction bs as [|v bs IH]; [reflexivity|].
  cbn [hex.EncodeToString String.length length]. rewrite IH. lia.
Qed.

(** Only the empty string decodes, without error, to no bytes at all. *)
Lemma DecodeString_nil (s : string) :
  hex.DecodeString s = ([], None) <-> s = "".
Proof.
  split; [|intros ->; reflexivity].
  destruct s as [|p [|q rest]]; [reflexivity| |]; cbn [hex.DecodeString].
  - destruct (hex.fromHexChar p); discriminate.
  - destruct (hex.fromHexChar p); [|discriminate].
    destruct (hex.fromHexChar q); [|discriminate].
    destruct (hex.DecodeString rest); discriminate.
Qed.

(** ** Bytes under exclusive or *)

Lemma to_N_byte_of_N (n : N) : (n < 256)%N -> Byte.to_N (hex.byte_of_N n) = n.
Proof.
  intros Hn. unfold hex.byte_of_N.
  destruct (Byte.of_N n) as [b|] eqn:Hb.
  - by apply Byte.to_of_N.
  - apply Byte.of_N_None_iff in Hb. lia.
Qed.

Lemma lxor_byte_bound (a b : byte) : (N.lxor (Byte.to_N a) (Byte.to_N b) < 256)%N.
Proof.
  pose proof (Byte.to_N_bounded a) as Ha.
  pose proof (Byte.to_N_bounded b) as Hb.
  destruct (N.eq_dec (N.lxor (Byte.to_N a) (Byte.to_N b)) 0%N) as [->|Hnz]; [lia|].
  change 256%N with (2 ^ 8)%N.
  apply N.log2_lt_pow2; [lia|].
  pose proof (N.log2_lxor (Byte.to_N a) (Byte.to_N b)) as Hx.
  pose proof (N.log2_le_mono _ _ Ha) as Ha'.
  pose proof (N.log2_le_mono _ _ Hb) as Hb'.
  change (N.log2 255) with 7%N in *. lia.
Qed.

Lemma byte_xor_cancel (a k : byte) : byte_xor (byte_xor a k) k = a.
Proof.
  unfold byte_xor.
  rewrite to_N_byte_of_N by apply lxor_byte_bound.
  rewrite N.lxor_assoc, N.lxor_nilpotent, N.lxor_0_r.
  unfold hex.byte_of_N. by rewrite Byte.of_to_N.
Qed.

(** ** The keyed loop *)

Lemma xor_range_nil_secret (i : nat) (b : byte) (bs : list byte) :
  xor_range [] i (b :: bs) = Panicked "runtime error: integer divide by zero".
Proof. reflexivity. Qed.

Lemma xor_range_key (secretBytes : list byte) (i : nat) :
  secretBytes <> [] ->
  exists k, secretBytes !! (i mod length secretBytes)%nat = Some k.
Proof.
  intros Hne. apply lookup_lt_is_Some_2.
  apply Nat.mod_upper_bound. destruct secretBytes; [done|]. cbn. lia.
Qed.

Lemma xor_range_total (secretBytes : list byte) (bs : list byte) (i : nat) :
  secretBytes <> [] ->
  exists out, xor_range secretBytes i bs = Returned out
              /\ length out = length bs
              /\ xor_range secretBytes i out = Returned bs.
Proof.
  intros Hne. revert i.
  induction bs as [|b bs IH]; intros i.
  - exists []. by repeat split.
  - destruct (xor_range_key secretBytes i Hne) as [k Hk].
    destruct (IH (S i)) as (out & Hout & Hlen & Hback).
    exists (byte_xor b k :: out).
    cbn [xor_range]. rewrite Hk.
    destruct (length secretBytes) as [|n] eqn:Hl.
    { destruct secretBytes; [done|discriminate]. }
    rewrite Hout, Hback. cbn [outcome_bind length].
    rewrite byte_xor_cancel, Hlen. by repeat split.
Qed.

Lemma list_byte_of_string_nil (s : string) :
  list_byte_of_string s = [] <-> s = "".
Proof.
  split; [|intros ->; reflexivity].
  destruct s; [reflexivity|discriminate].
Qed.

(** The loop either completes or stops on the remainder by zero; it stops
    exactly when there is a byte to process and no key byte. *)
Lemma xor_range_outcome (secretBytes bs : list byte) :
  (secretBytes <> [] /\ exists out, xor_range secretBytes 0 bs = Returned out)
  \/ (secretBytes = [] /\ bs = [] /\ xor_range secretBytes 0 bs = Returned [])
  \/ (secretBytes = [] /\ bs <> []
      /\ xor_range secretBytes 0 bs = Panicked "runtime error: integer divide by zero").
Proof.
  destruct secretBytes as [|k ks].
  - right. destruct bs as [|b bs]; [left|right]; by repeat split.
  - left. split; [done|].
    destruct (xor_range_total (k :: ks) bs 0) as (out & Hout & _); [done|].
    by exists out.
Qed.

(** ** Memo encryption round trip *)

(** C9: for every memo and every shared secret that is valid hex decoding
    to at least one byte, [EncryptMemo] succeeds and [DecryptMemo] of its
    result under the same secret succeeds and returns the original memo. *)
Theorem DecryptMemo_EncryptMemo (memo sharedSecret : string) (secretBytes : list byte) :
  hex.DecodeString sharedSecret = (secretBytes, None) ->
  secretBytes <> [] ->
  exists encrypted,
    EncryptMemo memo sharedSecret = Returned (encrypted, None)
    /\ DecryptMemo encrypted sharedSecret = Returned (memo, None).
Proof.
  intros Hdec Hne.
  destruct (xor_range_total secretBytes (list_byte_of_string memo) 0 Hne)
    as (out & Hout & _ & Hback).
  exists (hex.EncodeToString out). unfold EncryptMemo, DecryptMemo.
  rewrite DecodeString_EncodeToString, Hdec, Hout, Hback.
  cbn [outcome_bind]. by rewrite string_of_list_byte_of_string.
Qed.

Lemma DecryptMemo_EncryptMemo_witness :
  hex.DecodeString "0fF0" = ([x0f; xf0], None)
  /\ exists encrypted,
       EncryptMemo "pay rent" "0fF0" = Returned (encrypted, None)
       /\ DecryptMemo encrypted "0fF0" = Returned ("pay rent", None).
Proof.
  split; [reflexivity|].
  apply (DecryptMemo_EncryptMemo "pay rent" "0fF0" [x0f; xf0]);
    [reflexivity|discriminate].
Defined.

(** ** Memo encryption: when the operations fault *)

Lemma xor_range_Panicked (secretBytes bs : list byte) (msg : string) :
  xor_range secretBytes 0 bs = Panicked msg <->
  secretBytes = [] /\ bs <> [] /\ msg = div_by_zero.
Proof.
  destruct (xor_range_outcome secretBytes bs)
    as [(Hsb & out & Hout)|[(-> & -> & Hout)|(-> & Hm & Hout)]];
    rewrite Hout; split.
  - discriminate.
  - intros (? & _). contradiction.
  - discriminate.
  - intros (_ & ? & _). contradiction.
  - intros [= <-]. by repeat split.
  - intros (_ & _ & ->). reflexivity.
Qed.

Lemma EncryptMemo_Panicked (memo sharedSecret msg : string) :
  EncryptMemo memo sharedSecret = Panicked msg <->
  memo <> "" /\ sharedSecret = "" /\ msg = div_by_zero.
Proof.
  unfold EncryptMemo.
  destruct (hex.DecodeString sharedSecret) as [sb [e|]] eqn:Hs.
  - split; [discriminate|]. intros (_ & -> & _). discriminate Hs.
  - destruct (xor_range sb 0 (list_byte_of_string memo)) as [out|m] eqn:Hx;
      cbn [outcome_bind].
    + split; [discriminate|]. intros (Hm & -> & _).
      injection Hs as <-.
      rewrite <- list_byte_of_string_nil in Hm.
      destruct (list_byte_of_string memo); [done|discriminate Hx].
    + apply xor_range_Panicked in Hx as (-> & Hm & ->).
      apply DecodeString_nil in Hs as ->.
      rewrite list_byte_of_string_nil in Hm.
      split; [intros [= <-]|intros (_ & _ & ->)]; by repeat split.
Qed.

Lemma DecryptMemo_Panicked (encryptedMemo sharedSecret msg : string) :
  DecryptMemo encryptedMemo sharedSecret = Panicked msg <->
  sharedSecret = "" /\ msg = div_by_zero
  /\ exists b bs, hex.DecodeString encryptedMemo = (b :: bs, None).
Proof.
  unfold DecryptMemo.
  destruct (hex.DecodeString encryptedMemo) as [eb [e|]] eqn:He.
  { split; [discriminate|]. intros (_ & _ & b & bs & Hp). discriminate Hp. }
  destruct (hex.DecodeString sharedSecret) as [sb [e|]] eqn:Hs.
  { split; [discriminate|]. intros (-> & _). discriminate Hs. }
  destruct (xor_range sb 0 eb) as [out|m] eqn:Hx; cbn [outcome_bind].
  - split; [discriminate|]. intros (-> & _ & b & bs & [= ->]).
    injection Hs as <-. discriminate Hx.
  - apply xor_range_Panicked in Hx as (-> & Hm & ->).
    apply DecodeString_nil in Hs as ->.
    split; [intros [= <-]|by intros (_ & -> & _)].
    repeat split. destruct eb as [|b bs]; [done|]. by exists b, bs.
Qed.

Lemma EncryptMemo_Returned (memo sharedSecret : string) (secretBytes : list byte) :
  hex.DecodeString sharedSecret = (secretBytes, None) -> secretBytes <> [] ->
  exists r, EncryptMemo memo sharedSecret = Returned r.
Proof.
  intros Hs Hne.
  destruct (EncryptMemo memo sharedSecret) as [r|msg] eqn:H; [by exists r|].
  apply EncryptMemo_Panicked in H as (_ & -> & _). by inversion Hs; subst.
Qed.

Lemma DecryptMemo_Returned (encryptedMemo sharedSecret : string) (secretBytes : list byte) :
  hex.DecodeString sharedSecret = (secretBytes, None) -> secretBytes <> [] ->
  exists r, DecryptMemo encryptedMemo sharedSecret = Returned r.
Proof.
  intros Hs Hne.
  destruct (DecryptMemo encryptedMemo sharedSecret) as [r|msg] eqn:H; [by exists r|].
  apply DecryptMemo_Panicked in H as (-> & _). by inversion Hs; subst.
Qed.

(** C10: [EncryptMemo] and [DecryptMemo] return (a value or an error)
    whenever the shared secret decodes to at least one byte; they fault on
    the remainder by zero, instead of returning an error, exactly when the
    secret is the empty string (the one valid hex string of zero bytes)
    and there is at least one byte to process. *)
Theorem memo_xor_faults (memo sharedSecret : string) :
  (forall secretBytes,
      hex.DecodeString sharedSecret = (secretBytes, None) ->
      secretBytes <> [] ->
      (exists r, EncryptMemo memo sharedSecret = Returned r)
      /\ (exists r, DecryptMemo memo sharedSecret = Returned r))
  /\ (forall msg,
        EncryptMemo memo sharedSecret = Panicked msg <->
        memo <> "" /\ hex.DecodeString sharedSecret = ([], None)
        /\ msg = "runtime error: integer divide by zero")
  /\ (forall msg,
        DecryptMemo memo sharedSecret = Panicked msg <->
        (exists b bs, hex.DecodeString memo = (b :: bs, None))
        /\ hex.DecodeString sharedSecret = ([], None)
        /\ msg = "runtime error: integer divide by zero").
Proof.
  split; [|split].
  - intros secretBytes Hs Hne. split.
    + by apply (EncryptMemo_Returned memo sharedSecret secretBytes).
    + by apply (DecryptMemo_Returned memo sharedSecret secretBytes).
  - intros msg. rewrite EncryptMemo_Panicked, DecodeString_nil. reflexivity.
  - intros msg. rewrite DecryptMemo_Panicked, DecodeString_nil.
    unfold div_by_zero. tauto.
Qed.

Lemma memo_xor_faults_witness :
  EncryptMemo "pay rent" "" = Panicked "runtime error: integer divide by zero"
  /\ DecryptMemo "6799" "" = Panicked "runtime error: integer divide by zero"
  /\ (exists r, EncryptMemo "pay rent" "0fF0" = Returned r).
Proof.
  split; [|split].
  - apply (memo_xor_faults "pay rent" "").
    split; [discriminate|split; reflexivity].
  - apply (memo_xor_faults "6799" "").
    split; [by exists x67, [x99]|split; reflexivity].
  - apply (proj1 (memo_xor_faults "pay rent" "0fF0") [x0f; xf0]);
      [reflexivity|discriminate].
Defined.

(** ** Address derivation *)

Lemma length_Sum256 (data : list byte) : length (sha256.Sum256 data) = 32%nat.
Proof. unfold sha256.Sum256. rewrite !length_app. reflexivity. Qed.

Lemma EncodeToString_inj (xs ys : list byte) :
  hex.EncodeToString xs = hex.EncodeToString ys -> xs = ys.
Proof.
  intros H.
  assert (hex.DecodeString (hex.EncodeToString xs)
          = hex.DecodeString (hex.EncodeToString ys)) as Hd by (by rewrite H).
  rewrite !DecodeString_EncodeToString in Hd. by injection Hd.
Qed.

Lemma address_digits_inj (a b : string) :
  ("chert_" +:+ a, @None error) = ("chert_" +:+ b, None) -> a = b.
Proof.
  intros H. apply (f_equal fst) in H. cbn [fst] in H.
  exact (String.app_inj "chert_" a b H).
Qed.

Lemma GenerateAddress_valid (publicKey : string) (pubKeyBytes : list byte) :
  hex.DecodeString publicKey = (pubKeyBytes, None) ->
  GenerateAddress publicKey =
    ("chert_" +:+ hex.EncodeToString (firstn 20 (sha256.Sum256 pubKeyBytes)), None).
Proof. intros H. unfold GenerateAddress. by rewrite H. Qed.

(** C7, as stated, fails: two public keys as the claim reads them, distinct
    valid hex strings, may spell the same key bytes; the address is the
    same, and no two distinct digest inputs are involved. *)
Lemma GenerateAddress_letter_case :
  "AB" <> "ab"
  /\ hex.DecodeString "AB" = ([xab], None)
  /\ hex.DecodeString "ab" = ([xab], None)
  /\ GenerateAddress "AB" = GenerateAddress "ab"
  /\ ~ (forall pk1 pk2 b1 b2,
          hex.DecodeString pk1 = (b1, None) ->
          hex.DecodeString pk2 = (b2, None) ->
          pk1 <> pk2 ->
          (GenerateAddress pk1).1 <> (GenerateAddress pk2).1
          \/ (b1 <> b2 /\ sha256.Sum256 b1 = sha256.Sum256 b2)).
Proof.
  assert (GenerateAddress "AB" = GenerateAddress "ab") as Heq.
  { rewrite (GenerateAddress_valid "AB" [xab] eq_refl).
    rewrite (GenerateAddress_valid "ab" [xab] eq_refl). reflexivity. }
  split; [discriminate|].
  split; [reflexivity|]. split; [reflexivity|]. split; [exact Heq|].
  intros H.
  destruct (H "AB" "ab" [xab] [xab] eq_refl eq_refl) as [Hne|[Hne _]].
  - discriminate.
  - apply Hne. rewrite Heq. reflexivity.
  - apply Hne. reflexivity.
Qed.

(** C7 (amended): for public keys that are valid hex, the address is a
    function of the decoded key bytes alone, it is the prefix [chert_]
    followed by the 40 hex digits of the first 20 bytes of the SHA-256
    digest of those bytes (46 characters in all), and two keys have the
    same address exactly when these truncated digests coincide. *)
Theorem GenerateAddress_spec (pk1 pk2 : string) (b1 b2 : list byte) :
  hex.DecodeString pk1 = (b1, None) ->
  hex.DecodeString pk2 = (b2, None) ->
  (exists digits,
      GenerateAddress pk1 = ("chert_" +:+ digits, None)
      /\ digits = hex.EncodeToString (firstn 20 (sha256.Sum256 b1))
      /\ String.length digits = 40%nat
      /\ String.length ("chert_" +:+ digits) = 46%nat)
  /\ (b1 = b2 -> GenerateAddress pk1 = GenerateAddress pk2)
  /\ (GenerateAddress pk1 = GenerateAddress pk2 <->
      firstn 20 (sha256.Sum256 b1) = firstn 20 (sha256.Sum256 b2))
  /\ ((GenerateAddress pk1).1 <> (GenerateAddress pk2).1 \/
      (b1 = b2 \/
       (b1 <> b2 /\
        firstn 20 (sha256.Sum256 b1) = firstn 20 (sha256.Sum256 b2)))).
Proof.
  intros H1 H2.
  rewrite (GenerateAddress_valid pk1 b1 H1), (GenerateAddress_valid pk2 b2 H2).
  assert (String.length (hex.EncodeToString (firstn 20 (sha256.Sum256 b1))) = 40%nat)
    as Hlen.
  { rewrite length_EncodeToString, length_take, length_Sum256. reflexivity. }
  split; [|split; [|split]].
  - eexists. split; [reflexivity|]. split; [reflexivity|]. split; [exact Hlen|].
    change (S (S (S (S (S (S (String.length
              (hex.EncodeToString (firstn 20 (sha256.Sum256 b1))))))))) = 46%nat).
    by rewrite Hlen.
  - by intros ->.
  - split.
    + intros H. apply EncodeToString_inj. exact (address_digits_inj _ _ H).
    + intros H. rewrite H. reflexivity.
  - cbn [fst].
    destruct (List.list_eq_dec byte_eq_dec b1 b2) as [Hb|Hb]; [right; left; exact Hb|].
    destruct (List.list_eq_dec byte_eq_dec (firstn 20 (sha256.Sum256 b1))
                (firstn 20 (sha256.Sum256 b2)))
      as [Ht|Ht]; [right; right; split; assumption|].
    left. intros H. apply Ht, EncodeToString_inj.
    apply (String.app_inj "chert_"). exact H.
Qed.

Lemma GenerateAddress_spec_witness :
  hex.DecodeString "AB" = ([xab], None)
  /\ hex.DecodeString "00" = ([x00], None)
  /\ GenerateAddress "AB" = ("chert_087d80f7f182dd44f184aa86ca34488853ebcc04", None)
  /\ (GenerateAddress "AB").1 <> (GenerateAddress "00").1.
Proof.
  destruct (GenerateAddress_spec "AB" "00" [xab] [x00] eq_refl eq_refl)
    as ((digits & Hgen & Hdigits & _) & _ & Hiff & _).
  split; [reflexivity|]. split; [reflexivity|]. split.
  - rewrite Hgen, Hdigits. vm_compute. reflexivity.
  - intros Heq.
    assert (GenerateAddress "AB" = GenerateAddress "00") as Heq'.
    { revert Heq.
      rewrite (GenerateAddress_valid "AB" [xab] eq_refl).
      rewrite (GenerateAddress_valid "00" [x00] eq_refl).
      cbn [fst]. intros ->. reflexivity. }
    apply Hiff in Heq'. vm_compute in Heq'. discriminate Heq'.
Defined.

(** ** encoding/json: decoding and the shape of the target *)

(** Induction on JSON values that reaches the items of arrays and the
    members of objects. *)
Lemma JSON_nested_ind (P : JSON -> Prop) :
  P JNull ->
  (forall b, P (JBool b)) ->
  (forall n, P (JNum n)) ->
  (forall s, P (JString s)) ->
  (forall items, Forall P items -> P (JArray items)) ->
  (forall members, Forall (fun kv => P kv.2) members -> P (JObject members)) ->
  forall j, P j.
Proof.
  intros Hnull Hbool Hnum Hstr Harr Hobj.
  fix IH 1. intros [ | b | n | s | items | members ].
  - exact Hnull.
  - apply Hbool.
  - apply Hnum.
  - apply Hstr.
  - apply Harr. induction items as [|j items IHitems]; constructor; [apply IH|exact IHitems].
  - apply Hobj. induction members as [|[k j] members IHm]; constructor;
      [apply IH|exact IHm].
Qed.

Lemma zero_field_names (fields : list (string * govalue)) :
  map fst (map zero_field fields) = map fst fields.
Proof. rewrite map_map. reflexivity. Qed.

Lemma find_field_names (key : string) (fs fs' : list (string * govalue)) :
  map fst fs = map fst fs' -> json.find_field key fs = json.find_field key fs'.
Proof. unfold json.find_field. by intros ->. Qed.

Lemma find_field_lt (key : string) (fields : list (string * govalue)) (i : nat) :
  json.find_field key fields = Some i -> (i < length fields)%nat.
Proof.
  unfold json.find_field. intros H.
  rewrite <- (length_map fst fields).
  destruct (list_find _ (map fst fields)) as [[i' x]|] eqn:H1.
  - injection H as <-. apply list_find_Some in H1 as (Hl & _).
    by apply lookup_lt_Some in Hl.
  - destruct (list_find (fun name => json.foldName name = json.foldName key)
                (map fst fields)) as [[i' x]|] eqn:H2; [|discriminate].
    injection H as <-. apply list_find_Some in H2 as (Hl & _).
    by apply lookup_lt_Some in Hl.
Qed.

(** A field is looked up alike in two field lists of the same zero value. *)
Lemma find_field_value_zero (key : string) (fs fs' : list (string * govalue)) :
  map zero_field fs = map zero_field fs' ->
  zero <$> json.find_field_value key fs = zero <$> json.find_field_value key fs'.
Proof.
  intros Hz. unfold json.find_field_value.
  assert (map fst fs = map fst fs') as Hn
    by (by rewrite <- (zero_field_names fs), Hz, zero_field_names).
  rewrite (find_field_names key fs fs' Hn).
  destruct (json.find_field key fs') as [i|]; [|reflexivity].
  assert (map zero_field fs !! i = map zero_field fs' !! i) as Hi by (by rewrite Hz).
  rewrite !list_lookup_fmap in Hi.
  destruct (fs !! i) as [[n v]|], (fs' !! i) as [[n' v']|]; unfold zero_field in Hi; cbn in *; congruence.
Qed.

Lemma object_step (value : JSON -> govalue -> govalue * option error)
    (key : string) (jv : JSON) (rest : list (string * JSON))
    (fields : list (string * govalue)) (saved : option error) :
  json.object value ((key, jv) :: rest) fields saved =
  match json.find_field key fields with
  | None => json.object value rest fields saved
  | Some i =>
      match fields !! i with
      | None => json.object value rest fields saved
      | Some (fname, fv) =>
          json.object value rest
            (<[i := (fname, (value jv fv).1)]> fields)
            (json.saveError saved (value jv fv).2)
      end
  end.
Proof.
  cbn [json.object]. destruct (json.find_field key fields) as [i|]; [|reflexivity].
  destruct (fields !! i) as [[fname fv]|]; [|reflexivity].
  by destruct (value jv fv).
Qed.


(** Decoding the members of an object keeps the zero value of the fields,
    when decoding each member value keeps that of its target. *)
Lemma object_zero (value : JSON -> govalue -> govalue * option error)
    (members : list (string * JSON)) :
  Forall (fun kv => forall fv, zero (value kv.2 fv).1 = zero fv) members ->
  forall fields saved,
    map zero_field (json.object value members fields saved).1 = map zero_field fields.
Proof.
  induction 1 as [|[key jv] rest Hjv _ IH]; intros fields saved; [reflexivity|].
  rewrite object_step.
  destruct (json.find_field key fields) as [i|]; [|apply IH].
  destruct (fields !! i) as [[fname fv]|] eqn:Hi; [|apply IH].
  cbn [snd] in Hjv.
  rewrite IH, list_fmap_insert. unfold zero_field at 1. cbn [fst snd].
  rewrite (Hjv fv). apply list_insert_id.
  by rewrite list_lookup_fmap, Hi.
Qed.

Lemma Unmarshal_zero (j : JSON) :
  forall v, zero (json.Unmarshal j v).1 = zero v.
Proof.
  induction j as [ | b | n | s | items _ | members IH ] using JSON_nested_ind;
    intros v.
  - by destruct v.
  - by destruct v.
  - destruct v; try reflexivity. cbn [json.Unmarshal].
    by destruct ((0 <=? n)%Z && (n <? 2 ^ 64)%Z).
  - by destruct v.
  - by destruct v.
  - destruct v as [ | | | | | name fields]; try reflexivity.
    cbn [json.Unmarshal].
    pose proof (object_zero json.Unmarshal members IH fields None) as Hz.
    destruct (json.object json.Unmarshal members fields None) as [fields' saved].
    cbn [fst zero] in *. f_equal. exact Hz.
Qed.

Lemma zero_idemp : forall v, zero (zero v) = zero v.
Proof.
  fix IH 1. intros [ s | n | b | x | m | name fields ]; try reflexivity.
  cbn [zero]. f_equal. rewrite map_map.
  induction fields as [|[fname fv] fields IHfields]; [reflexivity|].
  cbn [map fst snd]. rewrite IH. f_equal. exact IHfields.
Qed.

Lemma members_match_zero (fits : JSON -> govalue -> bool)
    (members : list (string * JSON)) (fs fs' : list (string * govalue)) :
  Forall (fun kv => forall fv, fits kv.2 (zero fv) = fits kv.2 fv) members ->
  map zero_field fs = map zero_field fs' ->
  members_match fits members fs = members_match fits members fs'.
Proof.
  intros Hfits Hz.
  induction Hfits as [|[key jv] rest Hjv _ IH]; [reflexivity|].
  cbn [members_match]. rewrite IH. f_equal.
  pose proof (find_field_value_zero key fs fs' Hz) as Hf.
  destruct (json.find_field_value key fs) as [fv|],
           (json.find_field_value key fs') as [fv'|]; try discriminate; [|done].
  injection Hf as Hf. cbn [snd] in Hjv.
  by rewrite <- (Hjv fv), <- (Hjv fv'), Hf.
Qed.

(** Whether a payload fits depends on the kind of the target only. *)
Lemma shape_matches_zero (j : JSON) :
  forall v, shape_matches j (zero v) = shape_matches j v.
Proof.
  induction j as [ | b | n | s | items _ | members IH ] using JSON_nested_ind;
    intros v; try by destruct v.
  destruct v as [ | | | | | name fields]; try reflexivity.
  cbn [zero shape_matches].
  apply members_match_zero; [exact IH|].
  fold zero_field. rewrite map_map. apply map_ext.
  intros [fname fv]. unfold zero_field. cbn [fst snd]. by rewrite zero_idemp.
Qed.

Lemma shape_matches_same_zero (j : JSON) (v v' : govalue) :
  zero v = zero v' -> shape_matches j v = shape_matches j v'.
Proof. intros H. by rewrite <- (shape_matches_zero j v), H, shape_matches_zero. Qed.

(** The members of an object decode without a type error exactly when
    none was saved before and every member fits the field it selects. *)
Lemma object_saved (members : list (string * JSON)) (fields0 : list (string * govalue)) :
  Forall (fun kv => forall fv,
            ((json.Unmarshal kv.2 fv).2 = None <-> shape_matches kv.2 fv = true)
            /\ is_type_error (json.Unmarshal kv.2 fv).2) members ->
  forall fields saved,
    map zero_field fields = map zero_field fields0 ->
    ((json.object json.Unmarshal members fields saved).2 = None <->
     saved = None /\ members_match shape_matches members fields0 = true)
    /\ (is_type_error saved ->
        is_type_error (json.object json.Unmarshal members fields saved).2).
Proof.
  induction 1 as [|[key jv] rest Hjv _ IH]; intros fields saved Hz.
  { cbn. split; [|done]. split; [by intros ->|by intros [-> _]]. }
  rewrite object_step. cbn [members_match].
  pose proof (find_field_value_zero key fields fields0 Hz) as Hf.
  unfold json.find_field_value in Hf at 1.
  destruct (json.find_field key fields) as [i|] eqn:Hfind.
  2:{ destruct (json.find_field_value key fields0); [discriminate|].
      cbn [andb]. by apply IH. }
  destruct (fields !! i) as [[fname fv]|] eqn:Hi.
  2:{ apply find_field_lt in Hfind. apply lookup_ge_None in Hi. lia. }
  destruct (json.find_field_value key fields0) as [fv0|]; [|discriminate].
  injection Hf as Hf. cbn [snd] in Hf, Hjv.
  destruct (Hjv fv) as [Hiff Herr].
  rewrite (shape_matches_same_zero jv fv0 fv) by done.
  assert (map zero_field (<[i := (fname, (json.Unmarshal jv fv).1)]> fields)
          = map zero_field fields0) as Hz'.
  { rewrite list_fmap_insert. unfold zero_field at 1. cbn [fst snd].
    rewrite Unmarshal_zero, <- Hz. apply list_insert_id.
    by rewrite list_lookup_fmap, Hi. }
  destruct (IH _ (json.saveError saved (json.Unmarshal jv fv).2) Hz') as [IHiff IHerr].
  split.
  - rewrite IHiff, andb_true_iff, <- Hiff.
    destruct saved, (json.Unmarshal jv fv).2; cbn; intuition congruence.
  - intros Hs. apply IHerr. by destruct saved.
Qed.

(** [Unmarshal] reports a type error exactly when the payload does not
    fit the target, and it reports no other error. *)
Lemma Unmarshal_error (j : JSON) :
  forall v,
    ((json.Unmarshal j v).2 = None <-> shape_matches j v = true)
    /\ is_type_error (json.Unmarshal j v).2.
Proof.
  induction j as [ | b | n | s | items _ | members IH ] using JSON_nested_ind;
    intros v.
  - by destruct v.
  - by destruct v.
  - destruct v; try done. cbn [json.Unmarshal shape_matches].
    by destruct ((0 <=? n)%Z && (n <? 2 ^ 64)%Z).
  - by destruct v.
  - by destruct v.
  - destruct v as [ | | | | | name fields]; try done.
    cbn [json.Unmarshal shape_matches].
    destruct (object_saved members fields IH fields None eq_refl) as [Hiff Herr].
    destruct (json.object json.Unmarshal members fields None) as [fields' saved].
    cbn [snd] in *. split; [|by apply Herr].
    rewrite Hiff. intuition.
Qed.


(** ** The transport *)

(** What [Call] does once the envelope is encoded and the response body
    decoded. *)
Lemma Call_Decoded (E : env) (method : string) (params : any)
    (result : option govalue) (st : state) (requestBody : JSON)
    (rpcResp : JSONRPCResponse.t) :
  Marshal_request (request_of method params) = inl requestBody ->
  node E (length (posted st)) requestBody = Decoded rpcResp ->
  Call E method params result st =
    (match JSONRPCResponse.Error rpcResp with
     | Some e => (result, Some (rpcError e))
     | None =>
         match result, JSONRPCResponse.Result rpcResp with
         | Some out, Some payload =>
             (Some (json.Unmarshal payload out).1, (json.Unmarshal payload out).2)
         | _, _ => (result, None)
         end
     end, after_post st requestBody).
Proof.
  intros Hm Hn. unfold Call. rewrite Hm.
  unfold mbind, M_bind, roundTrip. rewrite Hn.
  destruct (JSONRPCResponse.Error rpcResp) as [e|]; [reflexivity|].
  destruct result as [out|]; [|reflexivity].
  destruct (JSONRPCResponse.Result rpcResp) as [payload|]; [|reflexivity].
  by destruct (json.Unmarshal payload out).
Qed.

(** C2: whenever the decoded response envelope carries a non-null error
    object, [Call] returns that very error (its code, message and data)
    and the caller's result slot is what it was before the call. *)
Theorem Call_returns_rpc_error (E : env) (method : string) (params : any)
    (result : option govalue) (st : state) (requestBody : JSON)
    (rpcResp : JSONRPCResponse.t) (e : JSONRPCError) :
  Marshal_request (request_of method params) = inl requestBody ->
  node E (length (posted st)) requestBody = Decoded rpcResp ->
  JSONRPCResponse.Error rpcResp = Some e ->
  Call E method params result st
  = ((result, Some (rpcError e)), after_post st requestBody).
Proof.
  intros Hm Hn He. rewrite (Call_Decoded E method params result st requestBody rpcResp Hm Hn).
  by rewrite He.
Qed.

Lemma Call_returns_rpc_error_witness :
  let e := {| Code := -32601; Message := "Method not found"; Data := None |} in
  let rpcResp :=
    {| JSONRPCResponse.JSONRPC := "2.0"; JSONRPCResponse.Result := None;
       JSONRPCResponse.Error := Some e; JSONRPCResponse.ID := Some (JNum 1) |} in
  let E := {| node := fun _ _ => Decoded rpcResp; uuid_New := fun _ => "" |} in
  let st := {| posted := []; drawn := 0 |} in
  let requestBody :=
    JObject [("jsonrpc", JString "2.0"); ("method", JString "estimateFee");
             ("id", JNum 1)] in
  Marshal_request (request_of "estimateFee" anyNil) = inl requestBody
  /\ Call E "estimateFee" anyNil (Some Fee_zero) st
     = ((Some Fee_zero, Some (rpcError e)), after_post st requestBody).
Proof.
  intros e rpcResp E st requestBody. split; [reflexivity|].
  apply (Call_returns_rpc_error E "estimateFee" anyNil (Some Fee_zero) st
           requestBody rpcResp e); reflexivity.
Defined.




(** A payload that lacks fields of the slot, or has members the slot
    does not know, fits: nothing is reported. *)
Example Call_missing_fields_no_error :
  let payload := JObject [("gasPrice", JString "7"); ("unit", JString "chert")] in
  let rpcResp :=
    {| JSONRPCResponse.JSONRPC := "2.0"; JSONRPCResponse.Result := Some payload;
       JSONRPCResponse.Error := None; JSONRPCResponse.ID := Some (JNum 1) |} in
  let E := {| node := fun _ _ => Decoded rpcResp; uuid_New := fun _ => "" |} in
  shape_matches payload Fee_zero = true
  /\ (Call E "estimateFee" anyNil (Some Fee_zero) {| posted := []; drawn := 0 |}).1
     = (Some Fee_zero, None).
Proof. split; reflexivity. Qed.

(** The other direction: a fitting payload is decoded without error. *)
Lemma Call_shape_match (E : env) (method : string) (params : any)
    (out : govalue) (st : state) (requestBody : JSON)
    (rpcResp : JSONRPCResponse.t) (payload : JSON) :
  Marshal_request (request_of method params) = inl requestBody ->
  node E (length (posted st)) requestBody = Decoded rpcResp ->
  JSONRPCResponse.Error rpcResp = None ->
  JSONRPCResponse.Result rpcResp = Some payload ->
  shape_matches payload out = true ->
  Call E method params (Some out) st
  = ((Some (json.Unmarshal payload out).1, None), after_post st requestBody).
Proof.
  intros Hm Hn He Hr Hshape.
  rewrite (Call_Decoded E method params (Some out) st requestBody rpcResp Hm Hn).
  rewrite He, Hr. by rewrite (proj2 (proj1 (Unmarshal_error payload out)) Hshape).
Qed.

(** ** The outbound envelope *)





(** ** Submission *)

(** C5: for every request and every account without a private key,
    [SendTransaction] fails with the local precondition error before
    anything else happens: no identifier is drawn for a signature, no
    request is posted, and the error is not an RPC error. *)
Theorem SendTransaction_watch_only (E : env) (request : TransactionRequest)
    (account : Account) (st : state) :
  PrivateKey account = "" ->
  SendTransaction E request account st
  = (("", Some (errorString "account does not have a private key")), st)
  /\ (forall e, (SendTransaction E request account st).1.2 <> Some (rpcError e))
  /\ posted (SendTransaction E request account st).2 = posted st
  /\ drawn (SendTransaction E request account st).2 = drawn st.
Proof.
  intros Hkey.
  assert (SendTransaction E request account st
          = (("", Some (errorString "account does not have a private key")), st)) as ->.
  { unfold SendTransaction. by destruct (decide (PrivateKey account = "")). }
  by repeat split.
Qed.

Lemma SendTransaction_watch_only_witness :
  let E := {| node := fun _ _ => DoFailed (httpError "unreachable"); uuid_New := fun _ => "" |} in
  let request := {| To := "addrB"; Amount := "100.0"; Fee := "0.1"; Memo := ""; Nonce := 0 |} in
  let account := {| Address := "addrA"; PublicKey := "00"; PrivateKey := "" |} in
  let st := {| posted := []; drawn := 0 |} in
  SendTransaction E request account st
  = (("", Some (errorString "account does not have a private key")), st).
Proof.
  intros E request account st.
  apply (SendTransaction_watch_only E request account st). reflexivity.
Defined.

Lemma foldl_insert_lookup (members : list (string * JSON)) :
  forall (m : gmap string JSON) (k : string) (v : JSON),
    foldl (fun acc kv => <[kv.1 := kv.2]> acc) m members !! k = Some v ->
    (k, v) ∈ members \/ m !! k = Some v.
Proof.
  induction members as [|[k' v'] members IH]; intros m k v H; [by right|].
  cbn [foldl] in H. apply IH in H as [H|H].
  - left. by right.
  - cbn [fst snd] in H. destruct (decide (k' = k)) as [->|Hne].
    + rewrite lookup_insert_eq in H. injection H as ->. left. by left.
    + rewrite lookup_insert_ne in H by done. by right.
Qed.

(** The map a transaction response is decoded into, by kind of payload. *)
Lemma Unmarshal_into_nil_map (payload : JSON) :
  match payload with
  | JObject members =>
      json.Unmarshal payload (VMap None)
      = (VMap (Some (foldl (fun acc kv => <[kv.1 := kv.2]> acc) ∅ members)), None)
  | JNull => json.Unmarshal payload (VMap None) = (VMap None, None)
  | _ => exists value type,
      json.Unmarshal payload (VMap None)
      = (VMap None, Some (json_UnmarshalTypeError value type))
  end.
Proof. destruct payload; cbn; eauto. Qed.

(** [SendTransaction] for an account that can sign: one identifier is
    drawn, the payload is posted, the response is looked at. *)
Lemma SendTransaction_signing (E : env) (request : TransactionRequest)
    (account : Account) (st : state) :
  PrivateKey account <> "" ->
  SendTransaction E request account st =
    let signature := "mock_signature_" +:+ uuid_New E (drawn st) in
    let tx : gmap string JSON :=
      <["signature" := JString signature]>
      (<["nonce" := JNum (Nonce request)]>
      (<["fee" := JString (Fee request)]>
      (<["amount" := JString (Amount request)]>
      (<["recipient" := JString (To request)]>
      (<["sender" := JString (Address account)]> ∅))))) in
    let tx :=
      if decide (Memo request = "") then tx
      else <["memo" := JString (Memo request)]> tx in
    let '(result, err, st') :=
      Call E "sendTransaction" (anyValue (JArray [json.Marshal_map tx]))
           (Some (VMap None)) {| posted := posted st; drawn := S (drawn st) |} in
    match err with
    | Some e => (("", Some e), st')
    | None =>
        match index result "hash" with
        | Some (JString txHash) => ((txHash, None), st')
        | _ => (("", Some (errorString "invalid transaction response")), st')
        end
    end.
Proof.
  intros Hkey. unfold SendTransaction.
  destruct (decide (PrivateKey account = "")) as [|_]; [done|].
  unfold signTransaction, GenerateTxID, mbind, M_bind, mret, M_ret. cbn zeta.
  destruct (Call E _ _ _ _) as [[result [e|]] st']; [reflexivity|].
  destruct (index result "hash") as [[ | | | | | ]|]; reflexivity.
Qed.

Lemma Marshal_map_tx (request : TransactionRequest) (account : Account)
    (signature : string) :
  json.Marshal_map
    (let tx : gmap string JSON :=
       <["signature" := JString signature]>
       (<["nonce" := JNum (Nonce request)]>
       (<["fee" := JString (Fee request)]>
       (<["amount" := JString (Amount request)]>
       (<["recipient" := JString (To request)]>
       (<["sender" := JString (Address account)]> ∅))))) in
     if decide (Memo request = "") then tx
     else <["memo" := JString (Memo request)]> tx)
  = signed_payload request account signature.
Proof.
  unfold signed_payload. cbn zeta.
  destruct (decide (Memo request = "")); vm_compute; reflexivity.
Qed.




(** ** Confirmation polling *)

Section PollingFacts.

Variable GetTransaction : nat -> string -> Transaction.t * option error.
Variable txHash : string.

Abbreviation step_at := (iteration GetTransaction txHash).
Abbreviation run := (fun fuel => loop GetTransaction fuel txHash).
Abbreviation state_after := (fun n => after GetTransaction n txHash).

Lemma loop_after (n fuel : nat) (timeoutMs : Z) (s s' : loop_state) :
  state_after n timeoutMs s = Some s' ->
  run (n + fuel)%nat timeoutMs s = run fuel timeoutMs s'.
Proof.
  revert s. induction n as [|n IH]; intros s H; cbn in H.
  - by injection H as ->.
  - cbn. destruct (step_at timeoutMs s) as [s1| ]; [|discriminate].
    by apply IH.
Qed.

Lemma iteration_error (timeoutMs : Z) (s : loop_state) :
  (startTime s < timeoutMs)%Z ->
  (GetTransaction (fetches s) txHash).2 <> None ->
  step_at timeoutMs s
  = Continue {| startTime := startTime s; fetches := S (fetches s) |}.
Proof.
  intros Hlt Herr. unfold iteration.
  destruct (Z.ltb_spec (startTime s) timeoutMs); [|lia].
  destruct (GetTransaction (fetches s) txHash) as [tx [e|]]; [reflexivity|done].
Qed.

Lemma iteration_pending (timeoutMs : Z) (s : loop_state) (tx : Transaction.t) :
  (startTime s < timeoutMs)%Z ->
  GetTransaction (fetches s) txHash = (tx, None) ->
  ~ terminal (Transaction.Status tx) ->
  step_at timeoutMs s
  = Continue {| startTime := ((startTime s + interval) mod 2 ^ 64)%Z;
                fetches := S (fetches s) |}.
Proof.
  intros Hlt Hget Hnt. unfold iteration, terminal in *.
  destruct (Z.ltb_spec (startTime s) timeoutMs); [|lia].
  rewrite Hget.
  destruct (decide (Transaction.Status tx = TxStatusConfirmed)); [tauto|].
  destruct (decide (_ \/ _)); [tauto|reflexivity].
Qed.

Lemma iteration_timeout (timeoutMs : Z) (s : loop_state) :
  (timeoutMs <= startTime s)%Z ->
  step_at timeoutMs s
  = Return None (Some (errorString "transaction confirmation timeout")) s.
Proof.
  intros Hge. unfold iteration.
  by destruct (Z.ltb_spec (startTime s) timeoutMs); [lia|].
Qed.

(** While every fetch fails the clock stands still and the loop goes on. *)
Lemma loop_spins (timeoutMs : Z) (fuel : nat) :
  (forall n, (GetTransaction n txHash).2 <> None) ->
  forall s, (startTime s < timeoutMs)%Z -> run fuel timeoutMs s = None.
Proof.
  intros Herr. induction fuel as [|fuel IH]; intros s Hlt; [reflexivity|].
  cbn. rewrite iteration_error by done. by apply IH.
Qed.

Lemma budget_pos (timeoutMs : Z) : (0 <= timeoutMs)%Z -> (0 < budget timeoutMs)%Z.
Proof. unfold budget. destruct (Z.eqb_spec timeoutMs 0); lia. Qed.

End PollingFacts.

(** C1, as the code has it: against a node whose every fetch fails, the
    error branch goes round without advancing the clock, so the loop
    condition stays true and [WaitForTransaction] has returned nothing
    after any number of iterations. *)
Theorem WaitForTransaction_spins_on_errors
    (GetTransaction : nat -> string -> Transaction.t * option error)
    (txHash : string) (timeoutMs : Z) (fuel : nat) :
  (0 <= timeoutMs)%Z ->
  (forall n, (GetTransaction n txHash).2 <> None) ->
  WaitForTransaction GetTransaction fuel txHash timeoutMs = None.
Proof.
  intros Hpos Herr. unfold WaitForTransaction.
  apply loop_spins; [exact Herr|]. cbn. by apply budget_pos.
Qed.

Lemma WaitForTransaction_spins_on_errors_witness :
  WaitForTransaction
    (fun _ _ => (Transaction_zero, Some (rpcError
       {| Code := -32000; Message := "transaction not found"; Data := None |})))
    1000 "0xabc" 60000 = None.
Proof.
  apply (WaitForTransaction_spins_on_errors
           (fun _ _ => (Transaction_zero, Some (rpcError
              {| Code := -32000; Message := "transaction not found"; Data := None |})))
           "0xabc" 60000 1000); [lia|discriminate].
Defined.

(** The sibling branch: when every fetch succeeds with a status that is
    not terminal, the clock advances by the interval each time and the
    loop returns the timeout error after ⌈budget/2000⌉ fetches, less than
    one interval past the budget. *)
Lemma loop_times_out
    (GetTransaction : nat -> string -> Transaction.t * option error)
    (txHash : string) (timeoutMs : Z) (fuel n : nat) :
  (timeoutMs <= 2 ^ 64 - 2000)%Z ->
  (forall k, (GetTransaction k txHash).2 = None
             /\ ~ terminal (Transaction.Status (GetTransaction k txHash).1)) ->
  forall s,
    (0 <= startTime s)%Z ->
    (timeoutMs <= startTime s + 2000 * Z.of_nat n)%Z ->
    (startTime s + 2000 * (Z.of_nat n - 1) < timeoutMs)%Z ->
    loop GetTransaction (S n + fuel) txHash timeoutMs s
    = Some (None, Some (errorString "transaction confirmation timeout"),
            {| startTime := (startTime s + 2000 * Z.of_nat n)%Z;
               fetches := (fetches s + n)%nat |}).
Proof.
  intros Hmax Hpend. induction n as [|n IH]; intros s H0 Hge Hlt.
  - cbn [loop plus]. rewrite iteration_timeout by lia.
    destruct s as [t f]. cbn. do 3 f_equal; [lia|lia].
  - destruct (Hpend (fetches s)) as [Hnone Hnt].
    destruct (GetTransaction (fetches s) txHash) as [tx e] eqn:Hget.
    cbn [fst snd] in *. subst e.
    change (S (S n) + fuel)%nat with (S (S n + fuel)).
    cbn [loop]. rewrite (iteration_pending _ _ _ _ tx) by (done || lia).
    unfold interval.
    rewrite Z.mod_small by lia.
    rewrite IH; cbn [startTime fetches]; [|lia..].
    do 3 f_equal; lia.
Qed.

(** X19: when every fetch succeeds with a status that is not terminal,
    [WaitForTransaction] returns the timeout error after ⌈budget/2000⌉
    fetches, the budget being 60000 when 0 is given, with the clock less
    than one interval past the budget (budgets up to 2^64 - 2000). *)
Lemma WaitForTransaction_times_out
    (GetTransaction : nat -> string -> Transaction.t * option error)
    (txHash : string) (timeoutMs : Z) (fuel : nat) :
  (0 <= timeoutMs <= 2 ^ 64 - 2000)%Z ->
  (forall k, (GetTransaction k txHash).2 = None
             /\ ~ terminal (Transaction.Status (GetTransaction k txHash).1)) ->
  let polls := Z.to_nat ((budget timeoutMs + 1999) / 2000) in
  WaitForTransaction GetTransaction (S polls + fuel) txHash timeoutMs
  = Some (None, Some (errorString "transaction confirmation timeout"),
          {| startTime := (2000 * Z.of_nat polls)%Z; fetches := polls |})
  /\ (budget timeoutMs <= 2000 * Z.of_nat polls < budget timeoutMs + 2000)%Z.
Proof.
  intros Hrange Hpend polls.
  assert (0 < budget timeoutMs <= 2 ^ 64 - 2000)%Z as Hb.
  { split; [apply budget_pos; lia|]. unfold budget.
    destruct (Z.eqb_spec timeoutMs 0); lia. }
  assert (budget timeoutMs <= 2000 * Z.of_nat polls < budget timeoutMs + 2000)%Z as Hp.
  { unfold polls. rewrite Z2Nat.id by (apply Z.div_pos; lia).
    pose proof (Z.div_mod (budget timeoutMs + 1999) 2000 ltac:(lia)) as Hdm.
    pose proof (Z.mod_pos_bound (budget timeoutMs + 1999) 2000 ltac:(lia)). lia. }
  split; [|exact Hp].
  unfold WaitForTransaction.
  rewrite (loop_times_out GetTransaction txHash (budget timeoutMs) fuel polls);
    cbn [startTime fetches]; try lia; [|exact Hpend].
  do 3 f_equal.
Qed.

Lemma iteration_terminal
    (GetTransaction : nat -> string -> Transaction.t * option error)
    (txHash : string) (timeoutMs : Z) (s : loop_state) (tx : Transaction.t) :
  (startTime s < timeoutMs)%Z ->
  GetTransaction (fetches s) txHash = (tx, None) ->
  let fetched := {| startTime := startTime s; fetches := S (fetches s) |} in
  (Transaction.Status tx = "confirmed" ->
   iteration GetTransaction txHash timeoutMs s = Return (Some tx) None fetched)
  /\ (Transaction.Status tx = "failed" \/ Transaction.Status tx = "rejected" ->
      iteration GetTransaction txHash timeoutMs s
      = Return None (Some (errorString ("transaction " +:+ Transaction.Status tx)))
               fetched).
Proof.
  intros Hlt Hget fetched. unfold iteration.
  destruct (Z.ltb_spec (startTime s) timeoutMs); [|lia]. rewrite Hget.
  unfold TxStatusConfirmed, TxStatusFailed, TxStatusRejected.
  split.
  - intros Hc. by destruct (decide (Transaction.Status tx = "confirmed")).
  - intros Hfr.
    destruct (decide (Transaction.Status tx = "confirmed")) as [Hc|_].
    { destruct Hfr as [Hf|Hf]; rewrite Hf in Hc; discriminate. }
    by destruct (decide (Transaction.Status tx = "failed"
                         \/ Transaction.Status tx = "rejected")).
Qed.

Lemma WaitForTransaction_terminal
    (GetTransaction : nat -> string -> Transaction.t * option error)
    (txHash : string) (timeoutMs : Z) (n fuel : nat) (s : loop_state)
    (tx : Transaction.t) :
  after GetTransaction n txHash (budget timeoutMs) {| startTime := 0; fetches := 0 |}
    = Some s ->
  (startTime s < budget timeoutMs)%Z ->
  GetTransaction (fetches s) txHash = (tx, None) ->
  let fetched := {| startTime := startTime s; fetches := S (fetches s) |} in
  (Transaction.Status tx = "confirmed" ->
   WaitForTransaction GetTransaction (n + S fuel) txHash timeoutMs
   = Some (Some tx, None, fetched))
  /\ (Transaction.Status tx = "failed" \/ Transaction.Status tx = "rejected" ->
      WaitForTransaction GetTransaction (n + S fuel) txHash timeoutMs
      = Some (None, Some (errorString ("transaction " +:+ Transaction.Status tx)),
              fetched)).
Proof.
  intros Hafter Hlt Hget fetched. unfold WaitForTransaction.
  rewrite (loop_after GetTransaction txHash n (S fuel) _ _ s Hafter).
  destruct (iteration_terminal GetTransaction txHash (budget timeoutMs) s tx Hlt Hget)
    as [Hc Hfr].
  split; intros Hst; cbn [loop]; [rewrite (Hc Hst)|rewrite (Hfr Hst)]; reflexivity.
Qed.

(** C6: at whatever point of the polling a fetch succeeds with status
    [confirmed], [WaitForTransaction] returns that transaction and no
    error; when it succeeds with status [failed] or [rejected], it returns
    no transaction and the error [transaction <status>]. *)
Theorem WaitForTransaction_terminal_status
    (GetTransaction : nat -> string -> Transaction.t * option error)
    (txHash : string) (timeoutMs : Z) (n fuel : nat) (s : loop_state)
    (tx : Transaction.t) :
  after GetTransaction n txHash (budget timeoutMs) {| startTime := 0; fetches := 0 |}
    = Some s ->
  (startTime s < budget timeoutMs)%Z ->
  GetTransaction (fetches s) txHash = (tx, None) ->
  let fetched := {| startTime := startTime s; fetches := S (fetches s) |} in
  (Transaction.Status tx = "confirmed" ->
   WaitForTransaction GetTransaction (n + S fuel) txHash timeoutMs
   = Some (Some tx, None, fetched))
  /\ (Transaction.Status tx = "failed" \/ Transaction.Status tx = "rejected" ->
      WaitForTransaction GetTransaction (n + S fuel) txHash timeoutMs
      = Some (None, Some (errorString ("transaction " +:+ Transaction.Status tx)),
              fetched)).
Proof.
  intros Hafter Hlt Hget fetched. unfold WaitForTransaction.
  rewrite (loop_after GetTransaction txHash n (S fuel) _ _ s Hafter).
  cbn [loop].
  destruct (iteration_terminal GetTransaction txHash (budget timeoutMs) s tx Hlt Hget)
    as [Hconfirmed Hfailed].
  split; intros Hstatus.
  - by rewrite (Hconfirmed Hstatus).
  - by rewrite (Hfailed Hstatus).
Qed.

Lemma WaitForTransaction_terminal_status_witness :
  WaitForTransaction slow_node 3 "0xabc" 60000
  = Some (Some (Transaction_with_status "confirmed"), None,
          {| startTime := 4000; fetches := 3 |}).
Proof.
  apply (WaitForTransaction_terminal_status slow_node "0xabc" 60000 2 0
           {| startTime := 4000; fetches := 2 |}
           (Transaction_with_status "confirmed"));
    [reflexivity|reflexivity|reflexivity|reflexivity].
Defined.

(** X20: a fetch that fails [n] times and then succeeds with status
    [confirmed] makes [WaitForTransaction] return that transaction after
    exactly [n + 1] fetches, whatever the budget: failed fetches do not
    use the budget up. *)
Lemma WaitForTransaction_after_errors
    (GetTransaction : nat -> string -> Transaction.t * option error)
    (txHash : string) (timeoutMs : Z) (n fuel : nat) (tx : Transaction.t) :
  (0 <= timeoutMs)%Z ->
  (forall k, (k < n)%nat -> (GetTransaction k txHash).2 <> None) ->
  GetTransaction n txHash = (tx, None) ->
  Transaction.Status tx = "confirmed" ->
  WaitForTransaction GetTransaction (n + S fuel) txHash timeoutMs
  = Some (Some tx, None, {| startTime := 0; fetches := S n |}).
Proof.
  intros Hpos Herr Hget Hst.
  assert (forall m, (m <= n)%nat ->
            after GetTransaction m txHash (budget timeoutMs)
              {| startTime := 0; fetches := n - m |}
            = Some {| startTime := 0; fetches := n |}) as Hafter.
  { induction m as [|m IH]; intros Hm.
    - cbn. by rewrite Nat.sub_0_r.
    - cbn [after]. rewrite iteration_error; cbn [startTime fetches].
      + replace (S (n - S m)) with (n - m)%nat by lia. apply IH. lia.
      + by apply budget_pos.
      + apply Herr. lia. }
  specialize (Hafter n (Nat.le_refl n)). rewrite Nat.sub_diag in Hafter.
  apply (WaitForTransaction_terminal GetTransaction txHash timeoutMs n fuel
           {| startTime := 0; fetches := n |} tx Hafter); cbn; try done.
  by apply budget_pos.
Qed.

(** X21: the clock is a [uint64]: with the budget 2^64 - 1 the addition
    of the interval wraps before the budget is reached, and the loop goes
    on for ever even though every fetch succeeds. *)
Lemma WaitForTransaction_wraps
    (GetTransaction : nat -> string -> Transaction.t * option error)
    (txHash : string) (fuel : nat) :
  (forall k, (GetTransaction k txHash).2 = None
             /\ ~ terminal (Transaction.Status (GetTransaction k txHash).1)) ->
  WaitForTransaction GetTransaction fuel txHash (2 ^ 64 - 1) = None.
Proof.
  intros Hpend. unfold WaitForTransaction. change (budget (2 ^ 64 - 1)) with (2 ^ 64 - 1)%Z.
  assert (forall s, (exists h, startTime s = 2 * h)%Z -> (0 <= startTime s < 2 ^ 64)%Z ->
            loop GetTransaction fuel txHash (2 ^ 64 - 1) s = None) as Hloop.
  { induction fuel as [|fuel IH]; intros s [h Hh] Hr; [reflexivity|].
    destruct (Hpend (fetches s)) as [Hnone Hnt].
    destruct (GetTransaction (fetches s) txHash) as [tx e] eqn:Hget.
    cbn [fst snd] in *. subst e.
    cbn [loop]. rewrite (iteration_pending _ _ _ _ tx) by (done || lia).
    apply IH; cbn [startTime]; unfold interval.
    - exists ((2 * h + 2000) mod 2 ^ 64 / 2)%Z. rewrite Hh.
      pose proof (Z.div_mod (2 * h + 2000) (2 ^ 64) ltac:(lia)) as Hdm.
      pose proof (Z.div_mod ((2 * h + 2000) mod 2 ^ 64) 2 ltac:(lia)) as Hdm2.
      assert (((2 * h + 2000) mod 2 ^ 64) mod 2 = 0)%Z as Hz; [|lia].
      change (2 ^ 64)%Z with (2 * 2 ^ 63)%Z.
      rewrite Z.rem_mul_r by lia.
      replace (2 * h + 2000)%Z with ((h + 1000) * 2)%Z by lia.
      rewrite Z.mod_mul by lia.
      rewrite Z.add_0_l, Z.mul_comm, Z.mod_mul by lia. reflexivity.
    - apply Z.mod_pos_bound. lia. }
  apply Hloop; cbn; [by exists 0%Z|lia].
Qed.

(** ** Hexadecimal text *)

Lemma string_pairs_ind (P : string -> Prop) :
  P "" ->
  (forall c, P (String c "")) ->
  (forall c d s, P s -> P (String c (String d s))) ->
  forall s, P s.
Proof.
  intros H0 H1 H2. fix IH 1. intros [|c [|d s]].
  - exact H0.
  - apply H1.
  - apply H2, IH.
Qed.

Lemma fromHexChar_hex_digit (c : ascii) :
  hex.fromHexChar c <> None <-> hex_digit c = true.
Proof.
  destruct c as [[] [] [] [] [] [] [] []]; vm_compute; split; congruence.
Qed.

Lemma DecodeString_length (s : string) :
  forall bs, hex.DecodeString s = (bs, None) ->
             String.length s = (2 * length bs)%nat.
Proof.
  induction s as [|c|c d s IH] using string_pairs_ind; intros bs H.
  - by injection H as <-.
  - cbn in H. destruct (hex.fromHexChar c); discriminate.
  - cbn [hex.DecodeString] in H.
    destruct (hex.fromHexChar c); [|discriminate].
    destruct (hex.fromHexChar d); [|discriminate].
    destruct (hex.DecodeString s) as [bs' e] eqn:Hs.
    injection H as <- ->. cbn [String.length length]. rewrite (IH bs' eq_refl). lia.
Qed.

(** [DecodeString] accepts exactly the hexadecimal texts. *)
Lemma DecodeString_hex_text (s : string) :
  (hex.DecodeString s).2 = None <-> hex_text s.
Proof.
  unfold hex_text.
  induction s as [|c|c d s IH] using string_pairs_ind.
  - cbn. split; [|done]. intros _. split; [by exists 0%nat|constructor].
  - cbn. split.
    + destruct (hex.fromHexChar c); discriminate.
    + intros [[k Hk] _]. lia.
  - cbn [hex.DecodeString String.length list_ascii_of_string].
    pose proof (fromHexChar_hex_digit c) as Hc.
    pose proof (fromHexChar_hex_digit d) as Hd.
    rewrite !Forall_cons.
    destruct (hex.fromHexChar c) as [a|].
    2:{ cbn. split; [discriminate|]. intros (_ & Hcc & _).
        apply Hc in Hcc. by destruct Hcc. }
    destruct (hex.fromHexChar d) as [b|].
    2:{ cbn. split; [discriminate|]. intros (_ & _ & Hdd & _).
        apply Hd in Hdd. by destruct Hdd. }
    destruct (hex.DecodeString s) as [bs e]. cbn [snd] in *.
    rewrite IH. split.
    + intros [[k Hk] Hall]. split; [exists (S k); lia|].
      split; [by apply Hc|]. split; [by apply Hd|done].
    + intros ([k Hk] & _ & _ & Hall). split; [exists (k - 1)%nat; lia|done].
Qed.

(** ** Keys and accounts *)

Lemma derivePublicKey_ok (privateKey : string) (bs : list byte) :
  hex.DecodeString privateKey = (bs, None) -> length bs = 32%nat ->
  derivePublicKey privateKey = (hex.EncodeToString bs, None).
Proof.
  intros Hd Hl. unfold derivePublicKey. rewrite Hd.
  by destruct (decide (length bs <> 32%nat)).
Qed.

Lemma derivePublicKey_inv (privateKey publicKey : string) :
  derivePublicKey privateKey = (publicKey, None) ->
  exists bs, hex.DecodeString privateKey = (bs, None)
             /\ length bs = 32%nat /\ publicKey = hex.EncodeToString bs.
Proof.
  unfold derivePublicKey.
  destruct (hex.DecodeString privateKey) as [bs [e|]]; [discriminate|].
  destruct (decide (length bs <> 32%nat)) as [|Hl]; [discriminate|].
  intros [= <-]. exists bs. repeat split. lia.
Qed.

(** X1: [derivePublicKey] succeeds exactly on the hexadecimal texts of 64
    digits; the key it returns has 64 lower-case digits, decodes to the
    same 32 bytes as the private key, and is left as it is when derived
    from again. *)
Theorem derivePublicKey_spec (privateKey : string) :
  ((derivePublicKey privateKey).2 = None <->
   hex_text privateKey /\ String.length privateKey = 64%nat)
  /\ forall publicKey,
       derivePublicKey privateKey = (publicKey, None) ->
       String.length publicKey = 64%nat
       /\ (exists bs, hex.DecodeString privateKey = (bs, None)
                      /\ hex.DecodeString publicKey = (bs, None)
                      /\ length bs = 32%nat)
       /\ derivePublicKey publicKey = (publicKey, None).
Proof.
  split.
  - rewrite <- DecodeString_hex_text. unfold derivePublicKey.
    destruct (hex.DecodeString privateKey) as [bs [e|]] eqn:Hd; cbn [snd].
    { split; [discriminate|]. by intros [? _]. }
    pose proof (DecodeString_length privateKey bs Hd) as Hlen.
    destruct (decide (length bs <> 32%nat)); cbn [snd]; split; try done.
    + intros [_ H64]. lia.
    + intros _. split; [done|lia].
  - intros publicKey H.
    destruct (derivePublicKey_inv privateKey publicKey H) as (bs & Hd & Hl & ->).
    split; [rewrite length_EncodeToString; lia|].
    split.
    + exists bs. by rewrite DecodeString_EncodeToString.
    + apply derivePublicKey_ok; [apply DecodeString_EncodeToString|done].
Qed.

Lemma derivePublicKey_spec_witness :
  derivePublicKey "00112233445566778899AABBCCDDEEFF00112233445566778899aabbccddeeff"
  = ("00112233445566778899aabbccddeeff00112233445566778899aabbccddeeff", None)
  /\ derivePublicKey "00112233445566778899aabbccddeeff00112233445566778899aabbccddeeff"
     = ("00112233445566778899aabbccddeeff00112233445566778899aabbccddeeff", None).
Proof.
  split; [reflexivity|].
  apply (proj2 (derivePublicKey_spec
    "00112233445566778899AABBCCDDEEFF00112233445566778899aabbccddeeff")).
  reflexivity.
Defined.

Lemma GenerateAddress_error (publicKey : string) :
  (GenerateAddress publicKey).2 = (fun e => wrapError "invalid public key hex: " e)
                                   <$> (hex.DecodeString publicKey).2
  /\ ((GenerateAddress publicKey).2 <> None -> (GenerateAddress publicKey).1 = "").
Proof.
  unfold GenerateAddress.
  destruct (hex.DecodeString publicKey) as [bs [e|]]; cbn; split; done.
Qed.

(** X2: [GenerateAddress] fails exactly when the public key is not
    hexadecimal text (odd length, or a character that is not a digit); it
    then returns the empty address and the decoder's error wrapped as
    [invalid public key hex].  Any number of key bytes is accepted, none
    included. *)
Theorem GenerateAddress_fails_iff (publicKey : string) :
  ((GenerateAddress publicKey).2 = None <-> hex_text publicKey)
  /\ (forall err,
        (GenerateAddress publicKey).2 = Some err ->
        (GenerateAddress publicKey).1 = ""
        /\ exists e, (hex.DecodeString publicKey).2 = Some e
                     /\ err = wrapError "invalid public key hex: " e).
Proof.
  destruct (GenerateAddress_error publicKey) as [Herr Hempty].
  rewrite <- DecodeString_hex_text. split.
  - rewrite Herr. by destruct (hex.DecodeString publicKey).2.
  - intros err H. split; [apply Hempty; by rewrite H|].
    rewrite Herr in H.
    destruct (hex.DecodeString publicKey).2 as [e|]; [|discriminate].
    injection H as <-. by exists e.
Qed.

Lemma GenerateAddress_fails_iff_witness :
  (GenerateAddress "").2 = None
  /\ GenerateAddress "0g"
     = ("", Some (wrapError "invalid public key hex: " (hex_InvalidByteError "g")))
  /\ GenerateAddress "abc" = ("", Some (wrapError "invalid public key hex: " hex_ErrLength)).
Proof.
  split; [|split; reflexivity].
  apply (proj1 (GenerateAddress_fails_iff "")).
  split; [by exists 0%nat|constructor].
Defined.

(** X3: [ImportAccount] fails only at the key, never at the address: its
    error is always [failed to derive public key]; on success the
    account keeps the private key as given, its public key is the same
    32 bytes in lower-case hex, and its address is that of the public
    key. *)
Theorem ImportAccount_spec (privateKey : string) :
  (forall err,
      (ImportAccount privateKey).2 = Some err ->
      (ImportAccount privateKey).1 = None
      /\ exists e, (derivePublicKey privateKey).2 = Some e
                   /\ err = wrapError "failed to derive public key: " e)
  /\ (forall publicKey,
        derivePublicKey privateKey = (publicKey, None) ->
        exists address,
          GenerateAddress publicKey = (address, None)
          /\ ImportAccount privateKey
             = (Some {| Address := address; PublicKey := publicKey;
                        PrivateKey := privateKey |}, None)).
Proof.
  assert (forall publicKey,
            derivePublicKey privateKey = (publicKey, None) ->
            exists address,
              GenerateAddress publicKey = (address, None)
              /\ ImportAccount privateKey
                 = (Some {| Address := address; PublicKey := publicKey;
                            PrivateKey := privateKey |}, None)) as Hok.
  { intros publicKey Hd.
    destruct (derivePublicKey_inv privateKey publicKey Hd) as (bs & _ & _ & ->).
    eexists. split.
    - apply (GenerateAddress_valid _ bs), DecodeString_EncodeToString.
    - unfold ImportAccount. rewrite Hd.
      by rewrite (GenerateAddress_valid _ bs (DecodeString_EncodeToString bs)). }
  split; [|exact Hok].
  intros err H.
  destruct (derivePublicKey privateKey) as [publicKey [e|]] eqn:Hd.
  - unfold ImportAccount in *. rewrite Hd in *. cbn in *.
    injection H as <-. split; [done|]. by exists e.
  - destruct (Hok publicKey eq_refl) as (address & _ & Himp).
    rewrite Himp in H. discriminate.
Qed.

Lemma ImportAccount_spec_witness :
  exists address,
    ImportAccount "00112233445566778899AABBCCDDEEFF00112233445566778899aabbccddeeff"
    = (Some {| Address := address;
               PublicKey := "00112233445566778899aabbccddeeff00112233445566778899aabbccddeeff";
               PrivateKey := "00112233445566778899AABBCCDDEEFF00112233445566778899aabbccddeeff" |},
       None).
Proof.
  destruct (proj2 (ImportAccount_spec
              "00112233445566778899AABBCCDDEEFF00112233445566778899aabbccddeeff")
              "00112233445566778899aabbccddeeff00112233445566778899aabbccddeeff"
              eq_refl) as (address & _ & H).
  by exists address.
Defined.

(** X4: an account created from 32 random bytes has the hex of those
    bytes as private key and, the derivation being a copy, the very same
    string as public key; importing its private key gives the same
    account back. *)
Theorem CreateAccount_ImportAccount (privateKeyBytes : list byte) :
  length privateKeyBytes = 32%nat ->
  exists account,
    CreateAccount (inl privateKeyBytes) = (Some account, None)
    /\ PrivateKey account = hex.EncodeToString privateKeyBytes
    /\ PublicKey account = PrivateKey account
    /\ GenerateAddress (PublicKey account) = (Address account, None)
    /\ ImportAccount (PrivateKey account) = (Some account, None).
Proof.
  intros Hl.
  pose proof (DecodeString_EncodeToString privateKeyBytes) as Hd.
  pose proof (GenerateAddress_valid _ privateKeyBytes Hd) as Ha.
  eexists. split.
  { unfold CreateAccount, generateKeyPair. rewrite Ha. reflexivity. }
  cbn [PrivateKey PublicKey Address].
  split; [reflexivity|]. split; [reflexivity|]. split; [exact Ha|].
  unfold ImportAccount.
  rewrite (derivePublicKey_ok _ privateKeyBytes Hd Hl), Ha. reflexivity.
Qed.

Lemma CreateAccount_ImportAccount_witness :
  exists account,
    CreateAccount (inl (repeat x2a 32)) = (Some account, None)
    /\ PublicKey account = PrivateKey account
    /\ ImportAccount (PrivateKey account) = (Some account, None).
Proof.
  destruct (CreateAccount_ImportAccount (repeat x2a 32) eq_refl)
    as (account & Hc & _ & Hp & _ & Hi).
  by exists account.
Defined.

(** When the random source fails, no account is made. *)
Example CreateAccount_no_entropy (err : error) :
  CreateAccount (inr err)
  = (None, Some (wrapError "failed to generate key pair: "
                   (wrapError "failed to generate random bytes: " err))).
Proof. reflexivity. Qed.

(** X5: a watch-only account made from a hexadecimal public key has that
    key's address and no private key, and [SendTransaction] with it is
    refused locally: nothing is signed, nothing is posted. *)
Theorem CreateWatchOnlyAccount_cannot_send (publicKey : string)
    (pubKeyBytes : list byte) :
  hex.DecodeString publicKey = (pubKeyBytes, None) ->
  exists account,
    CreateWatchOnlyAccount publicKey = (Some account, None)
    /\ GenerateAddress publicKey = (Address account, None)
    /\ PublicKey account = publicKey
    /\ PrivateKey account = ""
    /\ forall E request st,
         SendTransaction E request account st
         = (("", Some (errorString "account does not have a private key")), st).
Proof.
  intros Hd. pose proof (GenerateAddress_valid _ _ Hd) as Ha.
  eexists. split.
  { unfold CreateWatchOnlyAccount. rewrite Ha. reflexivity. }
  cbn [Address PublicKey PrivateKey]. split; [exact Ha|].
  split; [reflexivity|]. split; [reflexivity|].
  intros E request st. reflexivity.
Qed.

Lemma CreateWatchOnlyAccount_cannot_send_witness :
  exists account,
    CreateWatchOnlyAccount "ab" = (Some account, None)
    /\ PrivateKey account = "".
Proof.
  destruct (CreateWatchOnlyAccount_cannot_send "ab" [xab] eq_refl)
    as (account & Hc & _ & _ & Hk & _).
  by exists account.
Defined.

(** ** Shared secrets and memos *)

Lemma length_list_byte_of_string (s : string) :
  length (list_byte_of_string s) = String.length s.
Proof.
  induction s as [|c s IH]; [reflexivity|].
  change (list_byte_of_string (String c s))
    with (byte_of_ascii c :: list_byte_of_string s).
  cbn [length String.length]. by rewrite IH.
Qed.

(** With a key of at least one byte, encryption returns the hex of as
    many bytes as the memo has, and decryption undoes it. *)
Lemma EncryptMemo_with_key (memo sharedSecret : string) (secretBytes : list byte) :
  hex.DecodeString sharedSecret = (secretBytes, None) ->
  secretBytes <> [] ->
  exists out,
    xor_range secretBytes 0 (list_byte_of_string memo) = Returned out
    /\ length out = String.length memo
    /\ EncryptMemo memo sharedSecret = Returned (hex.EncodeToString out, None)
    /\ DecryptMemo (hex.EncodeToString out) sharedSecret = Returned (memo, None).
Proof.
  intros Hdec Hne.
  destruct (xor_range_total secretBytes (list_byte_of_string memo) 0 Hne)
    as (out & Hout & Hlen & Hback).
  exists out. split; [exact Hout|].
  split; [by rewrite Hlen, length_list_byte_of_string|].
  unfold EncryptMemo, DecryptMemo.
  rewrite DecodeString_EncodeToString, Hdec, Hout, Hback.
  cbn [outcome_bind]. by rewrite string_of_list_byte_of_string.
Qed.

Lemma DeriveSharedSecret_bytes (viewKey recipientViewKey : string) :
  exists secret secretBytes,
    DeriveSharedSecret viewKey recipientViewKey = (secret, None)
    /\ hex.DecodeString secret = (secretBytes, None)
    /\ length secretBytes = 32%nat.
Proof.
  eexists _, _. split; [reflexivity|].
  split; [apply DecodeString_EncodeToString|apply length_Sum256].
Qed.

(** X6: [DeriveSharedSecret] never fails and returns 64 hex digits, the
    SHA-256 digest of the two keys joined; with such a secret
    [EncryptMemo] never faults nor fails, its result is twice as long as
    the memo, and [DecryptMemo] gives the memo back. *)
Theorem DeriveSharedSecret_encrypts (viewKey recipientViewKey memo : string) :
  exists secret encrypted,
    DeriveSharedSecret viewKey recipientViewKey = (secret, None)
    /\ String.length secret = 64%nat
    /\ hex_text secret
    /\ EncryptMemo memo secret = Returned (encrypted, None)
    /\ String.length encrypted = (2 * String.length memo)%nat
    /\ DecryptMemo encrypted secret = Returned (memo, None).
Proof.
  destruct (DeriveSharedSecret_bytes viewKey recipientViewKey)
    as (secret & secretBytes & Hs & Hd & Hl).
  assert (secretBytes <> []) as Hne by (intros ->; discriminate).
  destruct (EncryptMemo_with_key memo secret secretBytes Hd Hne)
    as (out & _ & Hlen & Henc & Hdec).
  exists secret, (hex.EncodeToString out).
  split; [exact Hs|].
  split; [by rewrite (DecodeString_length secret secretBytes Hd), Hl|].
  split; [apply DecodeString_hex_text; by rewrite Hd|].
  split; [exact Henc|].
  split; [by rewrite length_EncodeToString, Hlen|exact Hdec].
Qed.

Lemma byte_xor_same_key (a b k : byte) :
  byte_xor (byte_xor a k) (byte_xor b k) = byte_xor a b.
Proof.
  unfold byte_xor.
  rewrite !to_N_byte_of_N by apply lxor_byte_bound.
  f_equal.
  rewrite N.lxor_assoc, <- (N.lxor_assoc (Byte.to_N k)), (N.lxor_comm (Byte.to_N k)).
  by rewrite N.lxor_assoc, N.lxor_nilpotent, N.lxor_0_r.
Qed.

Lemma xor_range_same_key (secretBytes : list byte) :
  forall (m1 m2 c1 c2 : list byte) (i : nat),
    xor_range secretBytes i m1 = Returned c1 ->
    xor_range secretBytes i m2 = Returned c2 ->
    zip_with byte_xor c1 c2 = zip_with byte_xor m1 m2.
Proof.
  induction m1 as [|a m1 IH]; intros m2 c1 c2 i H1 H2.
  - cbn in H1. by injection H1 as <-.
  - destruct m2 as [|b m2].
    { cbn in H2. injection H2 as <-. by destruct c1. }
    cbn [xor_range] in H1, H2.
    destruct (length secretBytes); [discriminate|].
    destruct (secretBytes !! _) as [k|]; [|discriminate].
    destruct (xor_range secretBytes (S i) m1) as [o1|] eqn:E1; [|discriminate].
    destruct (xor_range secretBytes (S i) m2) as [o2|] eqn:E2; [|discriminate].
    cbn [outcome_bind] in H1, H2. injection H1 as <-. injection H2 as <-.
    cbn [zip_with]. rewrite byte_xor_same_key. f_equal. by apply (IH m2 o1 o2 (S i)).
Qed.

(** X7: the memo cipher is a repeating-key XOR: under one shared secret,
    the XOR of two encrypted memos is the XOR of the two memos, whatever
    the secret. *)
Theorem EncryptMemo_same_secret (memo1 memo2 sharedSecret c1 c2 : string) :
  EncryptMemo memo1 sharedSecret = Returned (c1, None) ->
  EncryptMemo memo2 sharedSecret = Returned (c2, None) ->
  exists b1 b2,
    hex.DecodeString c1 = (b1, None)
    /\ hex.DecodeString c2 = (b2, None)
    /\ zip_with byte_xor b1 b2
       = zip_with byte_xor (list_byte_of_string memo1) (list_byte_of_string memo2).
Proof.
  unfold EncryptMemo.
  destruct (hex.DecodeString sharedSecret) as [secretBytes [e|]]; [discriminate|].
  destruct (xor_range secretBytes 0 (list_byte_of_string memo1)) as [o1|] eqn:E1;
    [|discriminate].
  destruct (xor_range secretBytes 0 (list_byte_of_string memo2)) as [o2|] eqn:E2;
    [|discriminate].
  cbn [outcome_bind]. intros [= <-] [= <-].
  exists o1, o2. rewrite !DecodeString_EncodeToString.
  split; [done|]. split; [done|].
  by apply (xor_range_same_key secretBytes _ _ _ _ 0%nat).
Qed.

Lemma EncryptMemo_same_secret_witness :
  exists b1 b2,
    hex.DecodeString "6799" = (b1, None)
    /\ hex.DecodeString "6095" = (b2, None)
    /\ zip_with byte_xor b1 b2
       = zip_with byte_xor (list_byte_of_string "hi") (list_byte_of_string "oe").
Proof.
  apply (EncryptMemo_same_secret "hi" "oe" "0fF0" "6799" "6095"); reflexivity.
Defined.

(** X8: [CreateStealthAccount] never fails; the address is [stealth_]
    followed by 40 hex digits, 48 characters in all, and it is computed
    from the two keys joined end to end, so that two pairs of keys that
    join to the same text get the same address. *)
Theorem CreateStealthAccount_address (viewKey spendPublicKey : string)
    (keys : option StealthKeys) :
  exists account digits,
    CreateStealthAccount viewKey spendPublicKey keys = (Some account, None)
    /\ StealthAccount.Address account = "stealth_" +:+ digits
    /\ String.length digits = 40%nat
    /\ String.length (StealthAccount.Address account) = 48%nat
    /\ StealthAccount.ViewKey account = viewKey
    /\ StealthAccount.SpendPublicKey account = spendPublicKey
    /\ StealthAccount.Keys account = keys
    /\ forall viewKey' spendPublicKey' keys',
         viewKey +:+ spendPublicKey = viewKey' +:+ spendPublicKey' ->
         exists account',
           CreateStealthAccount viewKey' spendPublicKey' keys' = (Some account', None)
           /\ StealthAccount.Address account' = StealthAccount.Address account.
Proof.
  assert (String.length (hex.EncodeToString (firstn 20 (sha256.Sum256
            (list_byte_of_string (viewKey +:+ spendPublicKey))))) = 40%nat) as Hlen.
  { rewrite length_EncodeToString, length_take, length_Sum256. reflexivity. }
  eexists _, _. split; [reflexivity|].
  cbn [StealthAccount.Address StealthAccount.ViewKey StealthAccount.SpendPublicKey
       StealthAccount.Keys].
  split; [reflexivity|]. split; [exact Hlen|].
  split.
  { change (S (S (S (S (S (S (S (S (String.length
              (hex.EncodeToString (firstn 20 (sha256.Sum256
                 (list_byte_of_string (viewKey +:+ spendPublicKey)))))))))))))
            = 48%nat).
    by rewrite Hlen. }
  split; [reflexivity|]. split; [reflexivity|]. split; [reflexivity|].
  intros viewKey' spendPublicKey' keys' Heq.
  eexists. split; [reflexivity|].
  cbn [StealthAccount.Address]. by rewrite Heq.
Qed.

Lemma CreateStealthAccount_address_witness :
  exists account account',
    CreateStealthAccount "ab" "c" None = (Some account, None)
    /\ CreateStealthAccount "a" "bc" None = (Some account', None)
    /\ StealthAccount.Address account' = StealthAccount.Address account.
Proof.
  destruct (CreateStealthAccount_address "ab" "c" None)
    as (account & digits & Hc & _ & _ & _ & _ & _ & _ & Hsame).
  destruct (Hsame "a" "bc" None eq_refl) as (account' & Hc' & Ha).
  by exists account, account'.
Defined.

(** ** Private transactions *)

Lemma Marshal_map_private_tx (amount ek fee nonce level rsk rvk sk : JSON)
    (encryptedMemo : string) :
  json.Marshal_map
    (if decide (encryptedMemo = "") then
       (<["nonce" := nonce]> (<["privacy_level" := level]> (<["fee" := fee]>
        (<["amount" := amount]> (<["ephemeral_keys" := ek]>
        (<["recipient_spend_key" := rsk]> (<["recipient_view_key" := rvk]>
        (<["sender_keys" := sk]> (∅ : gmap string JSON)))))))))
     else
       <["encrypted_memo" := JString encryptedMemo]>
       (<["nonce" := nonce]> (<["privacy_level" := level]> (<["fee" := fee]>
        (<["amount" := amount]> (<["ephemeral_keys" := ek]>
        (<["recipient_spend_key" := rsk]> (<["recipient_view_key" := rvk]>
        (<["sender_keys" := sk]> (∅ : gmap string JSON))))))))))
  = JObject
      ([("amount", amount)]
       ++ (if decide (encryptedMemo = "") then []
           else [("encrypted_memo", JString encryptedMemo)])
       ++ [("ephemeral_keys", ek); ("fee", fee); ("nonce", nonce);
           ("privacy_level", level); ("recipient_spend_key", rsk);
           ("recipient_view_key", rvk); ("sender_keys", sk)]).
Proof.
  destruct (decide (encryptedMemo = "")); vm_compute; reflexivity.
Qed.

(** The memo step of [SendPrivateTransaction]: no memo, nothing to
    encrypt; otherwise a non-empty ciphertext that the shared secret
    decrypts. *)
Lemma private_memo (memo viewSecret recipientViewKey : string) :
  exists encryptedMemo,
    (if decide (memo = "") then Returned ("", None)
     else EncryptMemo memo (DeriveSharedSecret viewSecret recipientViewKey).1)
    = Returned (encryptedMemo, None)
    /\ (encryptedMemo = "" <-> memo = "")
    /\ (memo <> "" ->
        DecryptMemo encryptedMemo (DeriveSharedSecret viewSecret recipientViewKey).1
        = Returned (memo, None)).
Proof.
  destruct (decide (memo = "")) as [->|Hm].
  { exists "". split; [reflexivity|]. split; [done|]. by intros []. }
  destruct (DeriveSharedSecret_bytes viewSecret recipientViewKey)
    as (secret & secretBytes & Hs & Hd & Hl).
  rewrite Hs. cbn [fst].
  assert (secretBytes <> []) as Hne by (intros ->; discriminate).
  destruct (EncryptMemo_with_key memo secret secretBytes Hd Hne)
    as (out & _ & Hlen & Henc & Hdec).
  exists (hex.EncodeToString out). split; [exact Henc|]. split; [|by intros _].
  split; [|by intros ->].
  intros He. destruct out as [|b out]; [|discriminate He].
  cbn in Hlen. destruct memo; [done|discriminate Hlen].
Qed.

Lemma SendPrivateTransaction_keys (E : env) (request : PrivateTransactionRequest.t)
    (recipientViewKey recipientSpendKey : string) (b1 b2 : list byte) (st : state) :
  exists encryptedMemo,
    let viewSecret :=
      Secret (ViewKeypair (PrivateTransactionRequest.SenderKeys request)) in
    let ephemeralKeys :=
      {| ViewKeypair := {| Public := hex.EncodeToString b1;
                           Secret := hex.EncodeToString b1 |};
         SpendKeypair := {| Public := hex.EncodeToString b2;
                            Secret := hex.EncodeToString b2 |} |} in
    (encryptedMemo = "" <-> PrivateTransactionRequest.Memo request = "")
    /\ (PrivateTransactionRequest.Memo request <> "" ->
        DecryptMemo encryptedMemo (DeriveSharedSecret viewSecret recipientViewKey).1
        = Returned (PrivateTransactionRequest.Memo request, None))
    /\ SendPrivateTransaction E request recipientViewKey recipientSpendKey
         (inl b1) (inl b2) st
       = let '(result, err, st') :=
           Call E "sendPrivateTransaction"
             (anyValue (JArray [private_payload request recipientViewKey
                                  recipientSpendKey (Some ephemeralKeys)
                                  encryptedMemo]))
             (Some (VMap None)) st in
         match err with
         | Some e => Returned ("", Some e, st')
         | None =>
             match index result "tx_id" with
             | Some (JString txID) => Returned (txID, None, st')
             | _ => Returned ("", Some (errorString
                                 "invalid private transaction response"), st')
             end
         end.
Proof.
  destruct (private_memo (PrivateTransactionRequest.Memo request)
              (Secret (ViewKeypair (PrivateTransactionRequest.SenderKeys request)))
              recipientViewKey) as (encryptedMemo & Hmemo & Hiff & Hdec).
  exists encryptedMemo. cbn zeta. split; [exact Hiff|]. split; [exact Hdec|].
  unfold SendPrivateTransaction, GenerateStealthKeys, generateKeyPair.
  change (DeriveSharedSecret ?a ?b) with
    ((DeriveSharedSecret a b).1, @None error).
  cbv beta iota. rewrite Hmemo. cbn [outcome_bind].
  rewrite Marshal_map_private_tx. reflexivity.
Qed.

(** ** Submissions through [Call] *)

Lemma foldl_insert_notin (members : list (string * JSON)) :
  forall (m : gmap string JSON) (k : string),
    k ∉ members.*1 ->
    foldl (fun acc kv => <[kv.1 := kv.2]> acc) m members !! k = m !! k.
Proof.
  induction members as [|[k' v'] members IH]; intros m k Hk; [reflexivity|].
  cbn [foldl fst snd]. rewrite fmap_cons in Hk. cbn [fst] in Hk.
  apply not_elem_of_cons in Hk as [Hne Hk].
  rewrite IH by done. by rewrite lookup_insert_ne.
Qed.

Lemma foldl_insert_member (members : list (string * JSON)) :
  forall (m : gmap string JSON) (k : string) (v : JSON),
    NoDup members.*1 -> (k, v) ∈ members ->
    foldl (fun acc kv => <[kv.1 := kv.2]> acc) m members !! k = Some v.
Proof.
  induction members as [|[k' v'] members IH]; intros m k v Hnd Hin.
  { by apply elem_of_nil in Hin. }
  rewrite fmap_cons in Hnd. cbn [fst] in Hnd. apply NoDup_cons in Hnd as [Hk' Hnd].
  cbn [foldl fst snd]. apply elem_of_cons in Hin as [[= -> ->]|Hin].
  - rewrite foldl_insert_notin by done. apply lookup_insert_eq.
  - by apply IH.
Qed.

Lemma extract_state (key missing : string)
    (r : option govalue * option error * state) :
  (extract key missing r).2 = r.2.
Proof.
  destruct r as [[result [e|]] st']; [reflexivity|]. cbn [extract].
  by destruct (index result key) as [[ | | | | | ]|].
Qed.

(** The outcome of a call into a nil map, by what the node did. *)
Lemma extract_Call (E : env) (method : string) (params : any) (body : JSON)
    (key missing : string) (st0 st : state) :
  Marshal_request (request_of method params) = inl body ->
  posted st = posted st0 ->
  submits E st0 (extract key missing (Call E method params (Some (VMap None)) st))
          body key missing.
Proof.
  intros Hbody Hposted. unfold submits. rewrite <- Hposted, extract_state.
  destruct (node E (length (posted st)) body) as [err|err|err|rpcResp] eqn:Hnode.
  1-3: unfold Call; rewrite Hbody; unfold mbind, M_bind, roundTrip; rewrite Hnode;
       by cbn.
  rewrite (Call_Decoded E method params (Some (VMap None)) st body rpcResp Hbody Hnode).
  cbn [snd after_post posted]. split; [reflexivity|].
  destruct (JSONRPCResponse.Error rpcResp) as [e|]; [reflexivity|].
  destruct (JSONRPCResponse.Result rpcResp) as [payload|]; [|reflexivity].
  pose proof (Unmarshal_into_nil_map payload) as Hu.
  destruct payload as [ | b | n | s | items | members ];
    try (destruct Hu as (value & type & Hu)); rewrite Hu;
    cbn [extract fst snd index]; eauto.
  split; [|split].
  - intros v Hin Hnd. by rewrite (foldl_insert_member members ∅ key (JString v)).
  - intros Hnone.
    destruct (foldl _ ∅ members !! key) as [v|] eqn:Hl; [|reflexivity].
    apply foldl_insert_lookup in Hl as [Hl|Hl]; [|by rewrite lookup_empty in Hl].
    destruct v; try reflexivity. by destruct (Hnone s).
  - intros v.
    destruct (foldl _ ∅ members !! key) as [w|] eqn:Hl; [|discriminate].
    apply foldl_insert_lookup in Hl as [Hl|Hl]; [|by rewrite lookup_empty in Hl].
    destruct w; try discriminate. by intros [= ->].
Qed.

(** X9: [Delegate] posts one [staking_delegate] request whose single
    parameter is the object of delegator, validator, amount and fee, and
    returns the [tx_hash] string of the result; errors of the transport
    and of the node are passed on as they are, and a result without such
    a string is the error [invalid delegation response]. *)
Theorem Delegate_submits (E : env)
    (delegatorAddress validatorAddress amount fee : string) (st : state) :
  submits E st (Delegate E delegatorAddress validatorAddress amount fee st)
    (call_body "staking_delegate"
       (JArray [JObject [("amount", JString amount);
                         ("delegator", JString delegatorAddress);
                         ("fee", JString fee);
                         ("validator", JString validatorAddress)]]))
    "tx_hash" "invalid delegation response".
Proof.
  assert (
    Delegate E delegatorAddress validatorAddress amount fee st
    = extract "tx_hash" "invalid delegation response"
        (Call E "staking_delegate"
           (anyValue (JArray [JObject [("amount", JString amount);
                                       ("delegator", JString delegatorAddress);
                                       ("fee", JString fee);
                                       ("validator", JString validatorAddress)]]))
           (Some (VMap None)) st)) as ->.
  { unfold Delegate. encode_map. as_extract. }
  apply extract_Call.
  - reflexivity.
  - reflexivity.
Qed.

(** X10: [UpdateCommission] posts one [staking_updateCommission] request
    carrying the validator, the owner, the new rate as a number and the
    fee, and returns the [tx_hash] string of the result, or the error
    [invalid commission update response]. *)
Theorem UpdateCommission_submits (E : env) (validatorAddress ownerAddress : string)
    (newRate : Z) (fee : string) (st : state) :
  submits E st (UpdateCommission E validatorAddress ownerAddress newRate fee st)
    (call_body "staking_updateCommission"
       (JArray [JObject [("fee", JString fee);
                         ("new_rate", JNum newRate);
                         ("owner_address", JString ownerAddress);
                         ("validator_address", JString validatorAddress)]]))
    "tx_hash" "invalid commission update response".
Proof.
  assert (
    UpdateCommission E validatorAddress ownerAddress newRate fee st
    = extract "tx_hash" "invalid commission update response"
        (Call E "staking_updateCommission"
           (anyValue (JArray [JObject [("fee", JString fee);
                                       ("new_rate", JNum newRate);
                                       ("owner_address", JString ownerAddress);
                                       ("validator_address", JString validatorAddress)]]))
           (Some (VMap None)) st)) as ->.
  { unfold UpdateCommission. encode_map. as_extract. }
  apply extract_Call.
  - reflexivity.
  - reflexivity.
Qed.

(** X11: [CreateProposal] posts one [governance_createProposal] request
    with title, description, proposer and fee, and returns the
    [proposal_id] string of the result (not a transaction hash), or the
    error [invalid proposal creation response]. *)
Theorem CreateProposal_submits (E : env)
    (title description proposerAddress fee : string) (st : state) :
  submits E st (CreateProposal E title description proposerAddress fee st)
    (call_body "governance_createProposal"
       (JArray [JObject [("description", JString description);
                         ("fee", JString fee);
                         ("proposer", JString proposerAddress);
                         ("title", JString title)]]))
    "proposal_id" "invalid proposal creation response".
Proof.
  assert (
    CreateProposal E title description proposerAddress fee st
    = extract "proposal_id" "invalid proposal creation response"
        (Call E "governance_createProposal"
           (anyValue (JArray [JObject [("description", JString description);
                                       ("fee", JString fee);
                                       ("proposer", JString proposerAddress);
                                       ("title", JString title)]]))
           (Some (VMap None)) st)) as ->.
  { unfold CreateProposal. encode_map. as_extract. }
  apply extract_Call.
  - reflexivity.
  - reflexivity.
Qed.

(** X12: [Vote] posts one [governance_vote] request with the proposal,
    the voter, the option as given (no check that it is one of the four
    vote options) and the fee, and returns the [tx_hash] string of the
    result, or the error [invalid vote response]. *)
Theorem Vote_submits (E : env) (proposalID voterAddress voteOption fee : string)
    (st : state) :
  submits E st (Vote E proposalID voterAddress voteOption fee st)
    (call_body "governance_vote"
       (JArray [JObject [("fee", JString fee);
                         ("option", JString voteOption);
                         ("proposal_id", JString proposalID);
                         ("voter", JString voterAddress)]]))
    "tx_hash" "invalid vote response".
Proof.
  assert (
    Vote E proposalID voterAddress voteOption fee st
    = extract "tx_hash" "invalid vote response"
        (Call E "governance_vote"
           (anyValue (JArray [JObject [("fee", JString fee);
                                       ("option", JString voteOption);
                                       ("proposal_id", JString proposalID);
                                       ("voter", JString voterAddress)]]))
           (Some (VMap None)) st)) as ->.
  { unfold Vote. encode_map. as_extract. }
  apply extract_Call.
  - reflexivity.
  - reflexivity.
Qed.

(** X13: for every request and every account with a private key,
    [SendTransaction] draws one identifier for the signature and posts
    one [sendTransaction] request whose payload has the sender, the
    recipient, the amount, the fee, the nonce (also when it is 0), the
    signature, and the memo exactly when it is not empty; it returns the
    [hash] string of the result, passes errors of the transport and of
    the node on as they are, and answers a result without such a string
    with [invalid transaction response]. *)
Theorem SendTransaction_submits (E : env) (request : TransactionRequest)
    (account : Account) (st : state) :
  PrivateKey account <> "" ->
  let signature := "mock_signature_" +:+ uuid_New E (drawn st) in
  let payload := signed_payload request account signature in
  submits E st (SendTransaction E request account st)
    (call_body "sendTransaction" (JArray [payload]))
    "hash" "invalid transaction response"
  /\ drawn (SendTransaction E request account st).2 = S (drawn st)
  /\ member "nonce" payload = Some (JNum (Nonce request))
  /\ member "signature" payload = Some (JString signature)
  /\ member "memo" payload
     = (if decide (Memo request = "") then None else Some (JString (Memo request))).
Proof.
  intros Hkey signature payload.
  assert (SendTransaction E request account st
          = extract "hash" "invalid transaction response"
              (Call E "sendTransaction" (anyValue (JArray [payload]))
                 (Some (VMap None))
                 {| posted := posted st; drawn := S (drawn st) |})) as Hsend.
  { rewrite (SendTransaction_signing E request account st Hkey). cbn zeta.
    rewrite Marshal_map_tx. fold signature. fold payload.
    destruct (Call E _ _ _ _) as [[result [e|]] st']; [reflexivity|].
    cbn [extract]. by destruct (index result "hash") as [[ | | | | | ]|]. }
  rewrite Hsend. split; [by apply extract_Call|].
  split.
  { rewrite extract_state. unfold Call.
    change (Marshal_request (request_of "sendTransaction" (anyValue (JArray [payload]))))
      with (@inl JSON error (call_body "sendTransaction" (JArray [payload]))).
    unfold mbind, M_bind, roundTrip. cbn [posted].
    destruct (node E _ _) as [err|err|err|rpcResp]; try reflexivity.
    destruct (JSONRPCResponse.Error rpcResp); [reflexivity|].
    destruct (JSONRPCResponse.Result rpcResp) as [p|]; [|reflexivity].
    by destruct (json.Unmarshal p (VMap None)). }
  unfold payload, signed_payload.
  destruct (decide (Memo request = "")); repeat split; reflexivity.
Qed.

Lemma SendTransaction_submits_witness :
  let E := {| node := fun _ _ => DoFailed (httpError "connection refused");
              uuid_New := fun _ => "6ba7b810-9dad-11d1-80b4-00c04fd430c8" |} in
  let request :=
    {| To := "addrB"; Amount := "1"; Fee := "0.1"; Memo := "rent"; Nonce := 0 |} in
  let account := {| Address := "addrA"; PublicKey := "00"; PrivateKey := "01" |} in
  (SendTransaction E request account {| posted := []; drawn := 0 |}).1
  = ("", Some (wrapError "RPC request failed: " (httpError "connection refused"))).
Proof.
  intros E request account.
  destruct (SendTransaction_submits E request account {| posted := []; drawn := 0 |}
              ltac:(discriminate)) as [Hsub _].
  exact (proj1 Hsub).
Defined.


(** X15: with random bytes for the ephemeral keys,
    [SendPrivateTransaction] posts one [sendPrivateTransaction] request;
    its payload carries the sender's key pairs, secrets included, and the
    ephemeral key pairs (public equal to secret), and it carries an
    [encrypted_memo] exactly when the memo is not empty, which the shared
    secret of the sender's view secret and the recipient's view key
    decrypts to the memo; the call returns the [tx_id] string of the
    result or [invalid private transaction response]. *)
Theorem SendPrivateTransaction_submits (E : env)
    (request : PrivateTransactionRequest.t)
    (recipientViewKey recipientSpendKey : string) (b1 b2 : list byte)
    (st : state) :
  let senderKeys := PrivateTransactionRequest.SenderKeys request in
  let memo := PrivateTransactionRequest.Memo request in
  let secret := (DeriveSharedSecret (Secret (ViewKeypair senderKeys))
                   recipientViewKey).1 in
  let ephemeralKeys :=
    {| ViewKeypair := {| Public := hex.EncodeToString b1;
                         Secret := hex.EncodeToString b1 |};
       SpendKeypair := {| Public := hex.EncodeToString b2;
                          Secret := hex.EncodeToString b2 |} |} in
  exists encryptedMemo r,
    let payload :=
      private_payload request recipientViewKey recipientSpendKey
        (Some ephemeralKeys) encryptedMemo in
    SendPrivateTransaction E request recipientViewKey recipientSpendKey
      (inl b1) (inl b2) st = Returned r
    /\ submits E st r (call_body "sendPrivateTransaction" (JArray [payload]))
         "tx_id" "invalid private transaction response"
    /\ (encryptedMemo = "" <-> memo = "")
    /\ (memo <> "" -> DecryptMemo encryptedMemo secret = Returned (memo, None))
    /\ member "encrypted_memo" payload
       = (if decide (memo = "") then None else Some (JString encryptedMemo))
    /\ member "sender_keys" payload
       = Some (JObject
                 [("view_keypair",
                   JObject [("public", JString (Public (ViewKeypair senderKeys)));
                            ("secret", JString (Secret (ViewKeypair senderKeys)))]);
                  ("spend_keypair",
                   JObject [("public", JString (Public (SpendKeypair senderKeys)));
                            ("secret", JString (Secret (SpendKeypair senderKeys)))])]).
Proof.
  intros senderKeys memo secret ephemeralKeys.
  destruct (SendPrivateTransaction_keys E request recipientViewKey recipientSpendKey
              b1 b2 st) as (encryptedMemo & Hiff & Hdec & Hsend).
  cbn zeta in Hsend, Hiff, Hdec.
  exists encryptedMemo.
  exists (extract "tx_id" "invalid private transaction response"
            (Call E "sendPrivateTransaction"
               (anyValue (JArray [private_payload request recipientViewKey
                                    recipientSpendKey (Some ephemeralKeys)
                                    encryptedMemo]))
               (Some (VMap None)) st)).
  cbn zeta. split.
  { rewrite Hsend. fold ephemeralKeys.
    destruct (Call E _ _ _ _) as [[result [e|]] st']; [reflexivity|].
    cbn [extract]. by destruct (index result "tx_id") as [[ | | | | | ]|]. }
  split; [by apply extract_Call|].
  split; [exact Hiff|]. split; [exact Hdec|].
  unfold private_payload. fold memo in Hiff.
  destruct (decide (encryptedMemo = "")) as [He|He],
           (decide (memo = "")) as [Hm|Hm]; try tauto; split; reflexivity.
Qed.

(** ** The transport: what a call leaves alone *)


(** ** Balance queries *)

(** X17: [GetBalance] posts one [getBalance] request with the address as
    only parameter and always returns a balance record: the zero balance
    with the node's error when the response carries an error object, the
    zero balance without any error when the result is absent or null, the
    three amounts when the result has them as strings; and it reports an
    error exactly when the result does not fit the record. *)
Theorem GetBalance_spec (E : env) (address : string) (st : state)
    (rpcResp : JSONRPCResponse.t) :
  let body := call_body "getBalance" (JArray [JString address]) in
  node E (length (posted st)) body = Decoded rpcResp ->
  (GetBalance E address st).2 = after_post st body
  /\ zero (GetBalance E address st).1.1 = Balance_zero
  /\ (forall e,
        JSONRPCResponse.Error rpcResp = Some e ->
        (GetBalance E address st).1 = (Balance_zero, Some (rpcError e)))
  /\ (JSONRPCResponse.Error rpcResp = None ->
      (JSONRPCResponse.Result rpcResp = None ->
       (GetBalance E address st).1 = (Balance_zero, None))
      /\ (forall available pending total,
            JSONRPCResponse.Result rpcResp
            = Some (JObject [("available", JString available);
                             ("pending", JString pending);
                             ("total", JString total)]) ->
            (GetBalance E address st).1
            = (VStruct "chert.Balance"
                 [("available", VString available); ("pending", VString pending);
                  ("total", VString total)], None))
      /\ (forall payload,
            JSONRPCResponse.Result rpcResp = Some payload ->
            ((GetBalance E address st).1.2 = None <->
             shape_matches payload Balance_zero = true))).
Proof.
  intros body Hnode. unfold GetBalance, mbind, M_bind, mret, M_ret.
  rewrite (Call_Decoded E "getBalance" (anyValue (JArray [JString address]))
             (Some Balance_zero) st body rpcResp eq_refl Hnode).
  destruct (JSONRPCResponse.Error rpcResp) as [e|].
  { cbn. split; [done|]. split; [done|]. split; [by intros ? [= <-]|done]. }
  destruct (JSONRPCResponse.Result rpcResp) as [payload|].
  2:{ cbn. split; [done|]. split; [done|]. split; [done|]. intros _.
      split; [done|]. split; [discriminate|discriminate]. }
  cbn [fst snd default]. split; [done|].
  split; [apply (Unmarshal_zero payload Balance_zero)|].
  split; [discriminate|]. intros _. split; [discriminate|]. split.
  - intros available pending total [= ->]. vm_compute. reflexivity.
  - intros payload' [= <-]. apply (Unmarshal_error payload Balance_zero).
Qed.

Lemma GetBalance_spec_witness :
  let rpcResp :=
    {| JSONRPCResponse.JSONRPC := "2.0"; JSONRPCResponse.Result := None;
       JSONRPCResponse.Error := None; JSONRPCResponse.ID := Some (JNum 1) |} in
  let E := {| node := fun _ _ => Decoded rpcResp; uuid_New := fun _ => "" |} in
  (GetBalance E "chert_00" {| posted := []; drawn := 0 |}).1 = (Balance_zero, None).
Proof.
  intros rpcResp E.
  destruct (GetBalance_spec E "chert_00" {| posted := []; drawn := 0 |} rpcResp eq_refl)
    as (_ & _ & _ & H).
  exact (proj1 (H eq_refl) eq_refl).
Defined.

(** ** Client configuration *)

Lemma DefaultEndpoint_not_empty : DefaultEndpoint <> "".
Proof. discriminate. Qed.

Lemma DefaultTimeout_not_zero : DefaultTimeout <> 0%Z.
Proof. discriminate. Qed.

Lemma NetworkMainnet_not_empty : NetworkMainnet <> "".
Proof. discriminate. Qed.

(** The configuration [NewClient] ends up with, field by field. *)
Lemma NewClient_normal (given : option ClientConfig) :
  NewClient given =
    (let cfg := default DefaultClientConfig given in
     let endpoint' :=
       if decide (Endpoint cfg = "") then DefaultEndpoint else Endpoint cfg in
     let timeout' :=
       if decide (Timeout cfg = 0%Z) then DefaultTimeout else Timeout cfg in
     let network' :=
       if decide (Network cfg = "") then NetworkMainnet else Network cfg in
     {| config := {| Endpoint := endpoint'; Network := network'; Timeout := timeout';
                     APIKey := APIKey cfg; Headers := Headers cfg |};
        httpClient_Timeout := timeout';
        rpcClient := NewRPCClient endpoint' timeout' |}, None).
Proof.
  unfold NewClient. cbv zeta.
  replace (match given with None => DefaultClientConfig | Some c => c end)
    with (default DefaultClientConfig given) by (by destruct given).
  destruct (default DefaultClientConfig given) as [ep nw tm key hd].
  cbn [Endpoint Network Timeout APIKey Headers].
  destruct (decide (ep = "")); cbn [Endpoint Network Timeout APIKey Headers];
    destruct (decide (tm = 0%Z)); cbn [Endpoint Network Timeout APIKey Headers];
    destruct (decide (nw = "")); reflexivity.
Qed.

(** X18: [NewClient] never fails; the configuration the client holds has
    a non-empty endpoint, a non-zero timeout and a non-empty network, the
    defaults standing in for what was left empty and everything given
    kept as it is (the network name is not checked); the RPC transport
    and the HTTP client are built from that endpoint and timeout; a nil
    configuration gives the default one; and making a client from a
    client's configuration changes nothing. *)
Theorem NewClient_defaults (given : option ClientConfig) :
  let c := (NewClient given).1 in
  (NewClient given).2 = None
  /\ Endpoint (GetConfig c) <> "" /\ Timeout (GetConfig c) <> 0%Z
  /\ Network (GetConfig c) <> ""
  /\ endpoint (rpcClient c) = Endpoint (GetConfig c)
  /\ client_Timeout (rpcClient c) = Timeout (GetConfig c)
  /\ httpClient_Timeout c = Timeout (GetConfig c)
  /\ (given = None -> GetConfig c = DefaultClientConfig)
  /\ (forall config,
        given = Some config ->
        (Endpoint config <> "" -> Endpoint (GetConfig c) = Endpoint config)
        /\ (Endpoint config = "" -> Endpoint (GetConfig c) = DefaultEndpoint)
        /\ (Timeout config <> 0%Z -> Timeout (GetConfig c) = Timeout config)
        /\ (Timeout config = 0%Z -> Timeout (GetConfig c) = DefaultTimeout)
        /\ (Network config <> "" -> Network (GetConfig c) = Network config)
        /\ (Network config = "" -> Network (GetConfig c) = NetworkMainnet)
        /\ APIKey (GetConfig c) = APIKey config
        /\ Headers (GetConfig c) = Headers config)
  /\ NewClient (Some (GetConfig c)) = (c, None).
Proof.
  cbn zeta. rewrite (NewClient_normal given). unfold GetConfig.
  cbn [fst snd config rpcClient httpClient_Timeout NewRPCClient endpoint client_Timeout
       Endpoint Network Timeout APIKey Headers].
  pose proof DefaultEndpoint_not_empty as Hde.
  pose proof DefaultTimeout_not_zero as Hdt.
  pose proof NetworkMainnet_not_empty as Hdn.
  split; [reflexivity|].
  split; [case_decide; congruence|].
  split; [case_decide; congruence|].
  split; [case_decide; congruence|].
  split; [reflexivity|]. split; [reflexivity|]. split; [reflexivity|].
  split.
  { intros ->. cbn [default from_option id]. unfold DefaultClientConfig.
    cbn [Endpoint Network Timeout APIKey Headers].
    repeat case_decide; congruence. }
  split.
  { intros cfg ->. cbn [default from_option id].
    repeat split; intros; repeat case_decide; congruence. }
  rewrite NewClient_normal. cbn [default from_option id Endpoint Network Timeout APIKey Headers].
  repeat case_decide; congruence.
Qed.

(** ** Memos: bad input and wrong keys *)

(** X22: text that is not hexadecimal is refused with an error, never
    with a fault: [EncryptMemo] refuses such a secret as [invalid shared
    secret]; [DecryptMemo] refuses such a memo as [invalid encrypted
    memo] whatever the secret is, and a bad secret, once the memo is
    good, as [invalid shared secret]. *)
Theorem memo_rejects_bad_hex (memo sharedSecret : string) :
  (~ hex_text sharedSecret ->
   exists e, EncryptMemo memo sharedSecret
             = Returned ("", Some (wrapError "invalid shared secret: " e)))
  /\ (~ hex_text memo ->
      exists e, DecryptMemo memo sharedSecret
                = Returned ("", Some (wrapError "invalid encrypted memo: " e)))
  /\ (hex_text memo -> ~ hex_text sharedSecret ->
      exists e, DecryptMemo memo sharedSecret
                = Returned ("", Some (wrapError "invalid shared secret: " e))).
Proof.
  rewrite <- !DecodeString_hex_text. unfold EncryptMemo, DecryptMemo.
  destruct (hex.DecodeString sharedSecret) as [sb [es|]],
           (hex.DecodeString memo) as [mb [em|]]; cbn [snd];
    repeat split; intros; try done; eauto.
Qed.

Lemma memo_rejects_bad_hex_witness :
  (exists e, EncryptMemo "pay rent" "xyz"
             = Returned ("", Some (wrapError "invalid shared secret: " e)))
  /\ (exists e, DecryptMemo "6799a" ""
                = Returned ("", Some (wrapError "invalid encrypted memo: " e))).
Proof.
  split.
  - apply (proj1 (memo_rejects_bad_hex "pay rent" "xyz")).
    intros [[k Hk] _]. cbn in Hk. lia.
  - apply (proj1 (proj2 (memo_rejects_bad_hex "6799a" ""))).
    intros [[k Hk] _]. cbn in Hk. lia.
Defined.

(** X23: decryption checks nothing: for every hexadecimal memo and
    every hexadecimal secret of at least one byte, the right one or not,
    [DecryptMemo] succeeds and returns a text of half the length of the
    memo. *)
Theorem DecryptMemo_any_secret (encryptedMemo sharedSecret : string)
    (secretBytes : list byte) :
  hex_text encryptedMemo ->
  hex.DecodeString sharedSecret = (secretBytes, None) ->
  secretBytes <> [] ->
  exists memo,
    DecryptMemo encryptedMemo sharedSecret = Returned (memo, None)
    /\ String.length encryptedMemo = (2 * String.length memo)%nat.
Proof.
  intros Hhex Hs Hne. apply DecodeString_hex_text in Hhex.
  unfold DecryptMemo.
  destruct (hex.DecodeString encryptedMemo) as [eb [e|]] eqn:He; [discriminate|].
  rewrite Hs.
  destruct (xor_range_total secretBytes eb 0 Hne) as (out & -> & Hlen & _).
  cbn [outcome_bind]. eexists. split; [reflexivity|].
  rewrite (DecodeString_length encryptedMemo eb He), <- Hlen.
  rewrite <- (length_list_byte_of_string (string_of_list_byte out)).
  by rewrite list_byte_of_string_of_list_byte.
Qed.

Lemma DecryptMemo_any_secret_witness :
  exists memo,
    DecryptMemo "6799" "ff" = Returned (memo, None)
    /\ String.length "6799" = (2 * String.length memo)%nat.
Proof.
  apply (DecryptMemo_any_secret "6799" "ff" [xff]); [|reflexivity|discriminate].
  split; [by exists 2%nat|]. repeat constructor.
Defined.

(** X24: [GenerateStealthKeys] succeeds exactly when both reads of the
    random source do; in each key pair it returns, the public key is the
    secret key, the hex of the bytes read. *)
Theorem GenerateStealthKeys_spec (random1 random2 : list byte + error) :
  ((GenerateStealthKeys random1 random2).2 = None <->
   exists b1 b2, random1 = inl b1 /\ random2 = inl b2)
  /\ (forall keys,
        (GenerateStealthKeys random1 random2).1 = Some keys ->
        Public (ViewKeypair keys) = Secret (ViewKeypair keys)
        /\ Public (SpendKeypair keys) = Secret (SpendKeypair keys)
        /\ exists b1 b2,
             random1 = inl b1 /\ random2 = inl b2
             /\ Secret (ViewKeypair keys) = hex.EncodeToString b1
             /\ Secret (SpendKeypair keys) = hex.EncodeToString b2)
  /\ (forall e,
        random1 = inr e ->
        GenerateStealthKeys random1 random2
        = (None, Some (wrapError "failed to generate view keypair: "
                         (wrapError "failed to generate random bytes: " e)))).
Proof.
  destruct random1 as [b1|e1], random2 as [b2|e2]; cbn.
  - split; [split; [by exists b1, b2|done]|].
    split; [|discriminate].
    intros keys [= <-]. cbn. repeat split. by exists b1, b2.
  - split; [split; [discriminate|by intros (? & ? & _ & [=])]|].
    split; [discriminate|discriminate].
  - split; [split; [discriminate|by intros (? & ? & [=] & _)]|].
    split; [discriminate|]. by intros e [= ->].
  - split; [split; [discriminate|by intros (? & ? & [=] & _)]|].
    split; [discriminate|]. by intros e [= ->].
Qed.

Lemma GenerateStealthKeys_spec_witness :
  GenerateStealthKeys (inr (httpError "no entropy")) (inl [x00])
  = (None, Some (wrapError "failed to generate view keypair: "
                   (wrapError "failed to generate random bytes: "
                      (httpError "no entropy")))).
Proof.
  apply (proj2 (proj2 (GenerateStealthKeys_spec
                         (inr (httpError "no entropy")) (inl [x00])))).
  reflexivity.
Defined.

(** ** Confirmation polling on sample nodes *)

Lemma WaitForTransaction_times_out_witness :
  WaitForTransaction (fun _ _ => (Transaction_with_status "pending", None))
    31 "0xabc" 0
  = Some (None, Some (errorString "transaction confirmation timeout"),
          {| startTime := 60000; fetches := 30 |}).
Proof.
  destruct (WaitForTransaction_times_out
              (fun _ _ => (Transaction_with_status "pending", None)) "0xabc" 0 0)
    as [H _]; [lia| |exact H].
  intros k. split; [reflexivity|]. intros [H|[H|H]]; discriminate H.
Defined.

Lemma WaitForTransaction_after_errors_witness :
  WaitForTransaction
    (fun k _ => if decide (k < 3)%nat
                then (Transaction_zero, Some (httpError "not found"))
                else (Transaction_with_status "confirmed", None))
    4 "0xabc" 1
  = Some (Some (Transaction_with_status "confirmed"), None,
          {| startTime := 0; fetches := 4 |}).
Proof.
  apply (WaitForTransaction_after_errors
           (fun k _ => if decide (k < 3)%nat
                       then (Transaction_zero, Some (httpError "not found"))
                       else (Transaction_with_status "confirmed", None))
           "0xabc" 1 3 0 (Transaction_with_status "confirmed"));
    [lia| |reflexivity|reflexivity].
  intros k Hk. destruct (decide (k < 3)%nat); [discriminate|lia].
Defined.

Lemma WaitForTransaction_wraps_witness :
  WaitForTransaction (fun _ _ => (Transaction_with_status "pending", None))
    1000 "0xabc" (2 ^ 64 - 1) = None.
Proof.
  apply (WaitForTransaction_wraps
           (fun _ _ => (Transaction_with_status "pending", None)) "0xabc" 1000).
  intros k. split; [reflexivity|]. intros [H|[H|H]]; discriminate H.
Defined.

(** ** Fee estimates *)



